(** * Verification of the menu, session and routing layer of work_assistant

    Shallow embedding of
    - [horizontal_v1/claude_code/frontend/src/stores/menu.ts]  (menu tree, routes)
    - [horizontal_v1/claude_code/frontend/src/stores/user.ts]  (session store)
    - [horizontal_v1/claude_code/frontend/src/api/request.ts],
      [horizontal_v1/qwn_code/frontend/src/api/http.ts], [unnamed/part_021]
      (response envelopes)
    - [unnamed/part_013] (navigation guard). *)

From Stdlib Require Import ZArith List String Sorting.Sorted Sorting.Permutation Lia.
From stdpp Require Import base gmap strings list pretty.
Import ListNotations.
Open Scope Z_scope.
Set Warnings "-register-all".

(* ================================================================== *)
(** ** Menu items (stores/menu.ts) *)

(** [interface MenuItem].  Optional string fields are [option string];
    [parentId : number | null] is [option Z].  [children] is the array the
    tree builder and the visibility pass fill in; an absent [children]
    field is represented by the empty list (the trees handled here all come
    from [buildMenuTree], which gives every node an array). *)
Inductive MenuItem := mkMenuItem {
  id : Z;
  parentId : option Z;
  name : string;
  router : option string;
  perms : option string;
  type : Z;              (* 0 = directory, 1 = menu, 2 = permission *)
  icon : option string;
  orderNum : Z;
  isShow : bool;
  keepAlive : bool;
  children : list MenuItem
}.

Definition with_children (it : MenuItem) (cs : list MenuItem) : MenuItem :=
  {| id := id it; parentId := parentId it; name := name it; router := router it;
     perms := perms it; type := type it; icon := icon it; orderNum := orderNum it;
     isShow := isShow it; keepAlive := keepAlive it; children := cs |}.

(** Induction over menu trees with the nested [children] list. *)
Section MenuItem_rect.
Variable P : MenuItem -> Prop.
Hypothesis Hnode : forall it, Forall P (children it) -> P it.

Fixpoint MenuItem_ind' (t : MenuItem) : P t :=
  Hnode t
    ((fix go (l : list MenuItem) : Forall P l :=
        match l with
        | [] => @List.Forall_nil MenuItem P
        | x :: r => @List.Forall_cons MenuItem P x r (MenuItem_ind' x) (go r)
        end) (children t)).
End MenuItem_rect.

(** *** [buildMenuTree]

    The JavaScript builder works on shared objects: [map] holds one node
    object per identifier, and [parent.children.push(node)] pushes a
    reference, so children attached later to [node] are visible through its
    parent.  The store of node objects is modelled as a [gmap] from
    identifier to the copied record and the list of identifiers of the
    node objects pushed into its [children] array. *)
Record Node := mkNode { node_item : MenuItem; node_children : list Z }.

Abbreviation Heap := (gmap Z Node).

(** First pass: [map.set(item.id, { ...item, children: [] })]. *)
Definition first_pass (items : list MenuItem) : Heap :=
  fold_left (fun h item => <[id item := mkNode (with_children item []) []]> h) items ∅.

(** JavaScript truthiness of [item.parentId : number | null]. *)
Definition truthy_parent (p : option Z) : bool :=
  match p with Some q => negb (q =? 0) | None => false end.

(** [parent.children.push(node)] on the node object stored under [p]. *)
Definition push_child (p c : Z) (h : Heap) : Heap :=
  match h !! p with
  | Some n => <[p := mkNode (node_item n) (node_children n ++ [c])]> h
  | None => h
  end.

(** Second pass. *)
Definition second_step (st : Heap * list Z) (item : MenuItem) : Heap * list Z :=
  let '(h, roots) := st in
  match parentId item with
  | Some p =>
      if truthy_parent (parentId item) && bool_decide (is_Some (h !! p))
      then (push_child p (id item) h, roots)
      else (h, roots ++ [id item])
  | None => (h, roots ++ [id item])
  end.

Definition second_pass (items : list MenuItem) (h : Heap) : Heap * list Z :=
  fold_left second_step items (h, []).

(** Reading the node objects back as values: the object under [x] with its
    [children] array resolved, [fuel] levels deep.  A node reachable from
    a root has fewer ancestors than there are records, so with one level
    per record ([buildMenuTree] below) nothing is cut off when the
    identifiers are distinct.  With a repeated identifier the node objects
    can form a cycle (a record whose [parentId] is its own, repeated,
    identifier), on which the JavaScript traversals of the tree never
    return; the fuel cuts such a cycle off, and the theorems below about
    the shape of the tree assume distinct identifiers. *)
Fixpoint materialize (fuel : nat) (h : Heap) (x : Z) : MenuItem :=
  match h !! x with
  | None => mkMenuItem x None "" None None 0 None 0 false false []
  | Some n =>
      match fuel with
      | O => with_children (node_item n) []
      | S f => with_children (node_item n) (map (materialize f h) (node_children n))
      end
  end.

Definition buildMenuTree (items : list MenuItem) : list MenuItem :=
  let '(h, roots) := second_pass items (first_pass items) in
  map (materialize (length items) h) roots.

(** *** [filterVisibleMenus]

    [Array.prototype.sort] is stable (ECMAScript 2019); with the comparator
    [(a, b) => a.orderNum - b.orderNum] it is the stable sort by
    [orderNum], written here as an insertion sort. *)
Fixpoint insert_by_order (x : MenuItem) (l : list MenuItem) : list MenuItem :=
  match l with
  | [] => [x]
  | y :: r => if orderNum x <? orderNum y then x :: y :: r else y :: insert_by_order x r
  end.

Definition sort_by_order (l : list MenuItem) : list MenuItem :=
  fold_left (fun acc x => insert_by_order x acc) l [].

Definition visible (item : MenuItem) : bool := isShow item && negb (type item =? 2).

(** One level of [filterVisibleMenus]:
    [items.filter(visible).map(item => ({...item, children: f(item)})).sort(...)]. *)
Definition filter_level (f : MenuItem -> list MenuItem) (items : list MenuItem) : list MenuItem :=
  sort_by_order (map (fun item => with_children item (f item)) (List.filter visible items)).

(** [filterVisibleMenus(item.children)]; the filter and the map over the
    children are fused into one structural pass (see [visible_children_eq]). *)
Fixpoint visible_children (t : MenuItem) : list MenuItem :=
  match t with
  | mkMenuItem _ _ _ _ _ _ _ _ _ _ cs =>
      sort_by_order
        ((fix go (l : list MenuItem) : list MenuItem :=
            match l with
            | [] => []
            | x :: r => if visible x then with_children x (visible_children x) :: go r else go r
            end) cs)
  end.

Definition filterVisibleMenus (items : list MenuItem) : list MenuItem :=
  filter_level visible_children items.


(** *** Sibling order *)

(** Adjacent siblings are in ascending [orderNum]. *)
Fixpoint sorted_orders (l : list MenuItem) : bool :=
  match l with
  | x :: ((y :: _) as r) => (orderNum x <=? orderNum y) && sorted_orders r
  | _ => true
  end.

(** Every level of the tree below [t] is in ascending [orderNum]. *)
Fixpoint tree_sorted (t : MenuItem) : bool :=
  match t with
  | mkMenuItem _ _ _ _ _ _ _ _ _ _ cs =>
      sorted_orders cs &&
      (fix all (l : list MenuItem) : bool :=
         match l with [] => true | x :: r => tree_sorted x && all r end) cs
  end.

Definition forest_sorted (l : list MenuItem) : bool :=
  sorted_orders l && forallb tree_sorted l.

(** Concrete records for the examples below. *)
Definition menu_rec (i : Z) (p : option Z) (nm : string) (rt : option string)
    (ty o : Z) (show : bool) : MenuItem :=
  mkMenuItem i p nm rt None ty None o show false [].

(** The scenario of the spec: one directory with one page below it. *)
Definition scenario_menu : list MenuItem :=
  [menu_rec 1 None "RK" None 0 1 true;
   menu_rec 2 (Some 1) "Supply" (Some "/rk/supply") 1 1 true].


(** Two top-level records listed against their display order. *)
Definition unordered_menu : list MenuItem :=
  [menu_rec 1 None "B" (Some "/b") 1 2 true;
   menu_rec 2 None "A" (Some "/a") 1 1 true].

(** *** Parent links and pre-order flattening *)

(** [map.has(x)] for the map filled from [items]. *)
Definition mem (x : Z) (l : list Z) : bool := existsb (Z.eqb x) l.

(** The parent a record is attached to by the second pass, if any:
    [item.parentId && map.has(item.parentId)]. *)
Definition link_of (dom : list Z) (item : MenuItem) : option Z :=
  match parentId item with
  | Some p => if truthy_parent (parentId item) && mem p dom then Some p else None
  | None => None
  end.

(** The parent link of the record with identifier [x]. *)
Definition link (items : list MenuItem) (x : Z) : option Z :=
  match List.find (fun it => id it =? x) items with
  | Some it => link_of (map id items) it
  | None => None
  end.

(** [anc items k y]: the [k]-th ancestor of [y] along the parent links. *)
Fixpoint anc (items : list MenuItem) (k : nat) (y : Z) : option Z :=
  match k with
  | O => Some y
  | S k' => match anc items k' y with Some z => link items z | None => None end
  end.

(** Pre-order traversal of a menu tree and of a forest. *)
Fixpoint preorder (t : MenuItem) : list Z :=
  match t with
  | mkMenuItem i _ _ _ _ _ _ _ _ _ cs =>
      i :: (fix go (l : list MenuItem) : list Z :=
              match l with [] => [] | x :: r => preorder x ++ go r end) cs
  end.

Definition flatten (l : list MenuItem) : list Z := flat_map preorder l.

(** Two records whose parents point at each other. *)
Definition cyclic_menu : list MenuItem :=
  [menu_rec 1 (Some 2) "A" (Some "/a") 1 1 true;
   menu_rec 2 (Some 1) "B" (Some "/b") 1 2 true].

(** Records the second pass makes roots, and children of [x]. *)
Definition is_root_of (dom : list Z) (item : MenuItem) : bool :=
  match link_of dom item with None => true | Some _ => false end.

Definition child_of (dom : list Z) (x : Z) (item : MenuItem) : bool :=
  match link_of dom item with Some p => p =? x | None => false end.

(* ================================================================== *)
(** ** Session store (stores/user.ts) *)

(** JavaScript [a || d] on an optional string: [undefined] and [''] are falsy. *)
Definition js_or (o : option string) (d : string) : string :=
  match o with Some s => if String.eqb s "" then d else s | None => d end.

(** [interface UserInfo]; the optional contact fields (email, phone,
    avatar, department) are copied through unchanged and left out. *)
Record UserInfo := mkUserInfo {
  userId : Z;
  username : string;
  nickName : string;
  roleIds : list Z;
  roles : list string
}.

(** The three localStorage keys [wa_token], [wa_refresh_token] and
    [wa_user_info] ([None] when the key is absent). *)
Record Storage := mkStorage {
  ls_token : option string;
  ls_refresh_token : option string;
  ls_user_info : option UserInfo
}.

(** The refs of the store, localStorage, and the paths passed to
    [router.push]. *)
Record UserState := mkUserState {
  token : string;
  refreshToken : string;
  userInfo : option UserInfo;
  permissions : list string;
  storage : Storage;
  pushed : list string
}.

(** Response payloads of [/v1/open/login] and [/v1/open/refreshToken],
    [/v1/comm/person] and [/v1/comm/perms]. *)
Record TokenData := mkTokenData { data_token : string; data_refreshToken : option string }.

Record PersonData := mkPersonData {
  p_id : Z; p_username : string; p_nickName : option string;
  p_roleIds : option (list Z); p_roles : option (list string)
}.

Record PermsData := mkPermsData { p_perms : option (list string) }.

(** An awaited request either resolves with the payload or rejects. *)
Inductive Response (A : Type) := Resolved (a : A) | Rejected (msg : string).
Arguments Resolved {A} a.
Arguments Rejected {A} msg.

(** What the server answers on each endpoint during one operation. *)
Record Server := mkServer {
  srv_login : Response TokenData;
  srv_person : Response PersonData;
  srv_perms : Response PermsData;
  srv_refresh : Response TokenData;
  srv_menu : Response (option (list MenuItem))
}.

(** The async actions: a state and error monad over the store. *)
Inductive Outcome (A : Type) := Ok (a : A) | Throw (msg : string).
Arguments Ok {A} a.
Arguments Throw {A} msg.

Definition M (S A : Type) := S -> Outcome A * S.

Definition ret {S A} (a : A) : M S A := fun s => (Ok a, s).
Definition bind {S A B} (m : M S A) (k : A -> M S B) : M S B :=
  fun s => match m s with (Ok a, s') => k a s' | (Throw e, s') => (Throw e, s') end.
Definition modify {S} (f : S -> S) : M S unit := fun s => (Ok tt, f s).
Definition get {S} : M S S := fun s => (Ok s, s).
Definition throw {S A} (e : string) : M S A := fun s => (Throw e, s).
(** [await http.post(...)]. *)
Definition await {S A} (r : Response A) : M S A :=
  fun s => match r with Resolved a => (Ok a, s) | Rejected e => (Throw e, s) end.

Notation "'let*' x := m 'in' k" := (bind m (fun x => k))
  (at level 200, x binder, m at level 100, k at level 200).

Definition set_token (t : string) (s : UserState) : UserState :=
  mkUserState t (refreshToken s) (userInfo s) (permissions s) (storage s) (pushed s).
Definition set_refreshToken (t : string) (s : UserState) : UserState :=
  mkUserState (token s) t (userInfo s) (permissions s) (storage s) (pushed s).
Definition set_userInfo (u : option UserInfo) (s : UserState) : UserState :=
  mkUserState (token s) (refreshToken s) u (permissions s) (storage s) (pushed s).
Definition set_permissions (p : list string) (s : UserState) : UserState :=
  mkUserState (token s) (refreshToken s) (userInfo s) p (storage s) (pushed s).
Definition set_storage (f : Storage -> Storage) (s : UserState) : UserState :=
  mkUserState (token s) (refreshToken s) (userInfo s) (permissions s) (f (storage s)) (pushed s).
Definition push_route (path : string) (s : UserState) : UserState :=
  mkUserState (token s) (refreshToken s) (userInfo s) (permissions s) (storage s) (pushed s ++ [path]).

Definition store_token (t : option string) (st : Storage) : Storage :=
  mkStorage t (ls_refresh_token st) (ls_user_info st).
Definition store_refresh_token (t : option string) (st : Storage) : Storage :=
  mkStorage (ls_token st) t (ls_user_info st).
Definition store_user_info (u : option UserInfo) (st : Storage) : Storage :=
  mkStorage (ls_token st) (ls_refresh_token st) u.

(** [const isAdmin = computed(() => userInfo.value?.username === 'admin')] *)
Definition isAdmin (s : UserState) : bool :=
  match userInfo s with Some u => String.eqb (username u) "admin" | None => false end.

Definition isLoggedIn (s : UserState) : bool := negb (String.eqb (token s) "").

Definition includes (l : list string) (x : string) : bool := existsb (String.eqb x) l.

Definition hasPermission (s : UserState) (permission : string) : bool :=
  if isAdmin s then true else includes (permissions s) permission.

Definition hasAnyPermission (s : UserState) (ps : list string) : bool :=
  if isAdmin s then true else existsb (includes (permissions s)) ps.

Definition hasAllPermissions (s : UserState) (ps : list string) : bool :=
  if isAdmin s then true else forallb (includes (permissions s)) ps.

Definition fetchUserInfo (srv : Server) : M UserState UserInfo :=
  let* data := await (srv_person srv) in
  let u := mkUserInfo (p_id data) (p_username data)
             (js_or (p_nickName data) (p_username data))
             (default [] (p_roleIds data)) (default [] (p_roles data)) in
  let* _ := modify (set_userInfo (Some u)) in
  let* permsData := await (srv_perms srv) in
  let* _ := modify (set_permissions (default [] (p_perms permsData))) in
  let* _ := modify (set_storage (store_user_info (Some u))) in
  ret u.

(** [if (data.refreshToken) localStorage.setItem(REFRESH_TOKEN_KEY, data.refreshToken)] *)
Definition save_refresh_token (data : TokenData) : M UserState unit :=
  if String.eqb (js_or (data_refreshToken data) "") ""
  then ret tt
  else modify (set_storage (store_refresh_token (data_refreshToken data))).

Definition login (srv : Server) (user password : string) : M UserState TokenData :=
  let* data := await (srv_login srv) in
  let* _ := modify (set_token (data_token data)) in
  let* _ := modify (set_refreshToken (js_or (data_refreshToken data) "")) in
  let* _ := modify (set_storage (store_token (Some (data_token data)))) in
  let* _ := save_refresh_token data in
  let* _ := fetchUserInfo srv in
  ret data.

Definition refreshUserToken (srv : Server) : M UserState TokenData :=
  let* s := get in
  if String.eqb (refreshToken s) "" then throw "No refresh token" else
  let* data := await (srv_refresh srv) in
  let* _ := modify (set_token (data_token data)) in
  let* _ := modify (set_refreshToken (js_or (data_refreshToken data) (refreshToken s))) in
  let* _ := modify (set_storage (store_token (Some (data_token data)))) in
  let* _ := save_refresh_token data in
  ret data.

Definition logout (s : UserState) : UserState :=
  push_route "/login"
    (mkUserState "" "" None [] (mkStorage None None None) (pushed s)).

(* ================================================================== *)
(** ** Route synthesis (stores/menu.ts: generateRoutes, resolveComponent) *)

(** A [RouteRecordRaw] built by [generateRoutes]: [path], [name] and the
    [meta] fields.  Its [component] is [() => resolveComponent(item.router!)],
    determined by [r_path]. *)
Record RouteRecord := mkRoute {
  r_path : string;
  r_name : string;
  r_title : string;
  r_icon : option string;
  r_keepAlive : bool;
  r_perms : option string
}.

(** Truthiness of [item.router]. *)
Definition truthy_str (o : option string) : bool :=
  match o with Some s => negb (String.eqb s "") | None => false end.

(** [traverse] on one item: its route if [item.type === 1 && item.router],
    then the routes of its children ([if (item.children?.length)]). *)
Fixpoint routes_of (t : MenuItem) : list RouteRecord :=
  match t with
  | mkMenuItem _ _ nm rt pr ty ic _ _ ka cs =>
      (if (ty =? 1) && truthy_str rt
       then [mkRoute (default "" rt) nm nm ic ka pr] else []) ++
      (fix go (l : list MenuItem) : list RouteRecord :=
         match l with [] => [] | x :: r => routes_of x ++ go r end) cs
  end.

Definition generateRoutes (menus : list MenuItem) : list RouteRecord :=
  flat_map routes_of menus.

(** [router.addRoute('Layout', route)] as vue-router documents it (the
    router library is not part of this repository): adding a route whose
    (truthy) name is already registered removes the registered one first;
    the parent name only affects matching. *)
Definition vue_addRoute (parent : string) (r : RouteRecord) (tbl : list RouteRecord)
    : list RouteRecord :=
  (if String.eqb (r_name r) ""
   then tbl
   else List.filter (fun e => negb (String.eqb (r_name e) (r_name r))) tbl) ++ [r].

(** [dynamicRoutes.forEach(route => router.addRoute('Layout', route))]. *)
Definition register_routes (rs : list RouteRecord) (tbl : list RouteRecord) : list RouteRecord :=
  fold_left (fun t r => vue_addRoute "Layout" r t) rs tbl.

(** Two pages with the same display name. *)
Definition same_name_menu : list MenuItem :=
  [menu_rec 1 None "Report" (Some "/rk/a") 1 1 true;
   menu_rec 2 None "Report" (Some "/rk/b") 1 2 true].

(** *** [resolveComponent] *)

(** What [import.meta.glob] found and what the resolver returns: a view
    module by its key, or the [404] placeholder view. *)
Inductive View := ViewModule (key : string) | NotFoundView.

Definition views_key (path : string) : string := "/src/views/" ++ path ++ ".vue".
Definition index_key (path : string) : string := "/src/views/" ++ path ++ "/index.vue".

Definition resolveComponent (modules : list string) (router : string) : View :=
  let path := if String.prefix "/" router
              then substring 1 (String.length router - 1) router else router in
  if includes modules (views_key path) then ViewModule (views_key path)
  else if includes modules (index_key path) then ViewModule (index_key path)
  else NotFoundView.

(** The resolution convention in the words of the spec, for the path after
    its leading separator is stripped. *)
Definition resolve_by_convention (modules : list string) (path : string) : View :=
  if includes modules (views_key path) then ViewModule (views_key path)
  else if includes modules (index_key path) then ViewModule (index_key path)
  else NotFoundView.

(* ================================================================== *)
(** ** Response envelopes *)

(** The [code] member of a response body: a number, another JSON value, or
    no such key. *)
Inductive CodeVal := CNum (z : Z) | COther (s : string) | CAbsent.

(** [{ code, message, data, result }]; absent members are [None]. *)
Record Envelope := mkEnvelope {
  env_code : CodeVal;
  env_message : option string;
  env_data : option string;
  env_result : option string
}.

(** [response.data]: an object, [null], or some other JSON value (string,
    number). *)
Inductive Body := BObj (e : Envelope) | BNull | BOther (s : string).

(** What the caller receives: a member of the envelope (maybe [undefined]),
    the whole body, a rejection carrying the message of its [Error], or the
    [TypeError] thrown by reading a member of [null]. *)
Inductive Settled :=
  | ResolveField (v : option string)
  | ResolveBody (b : Body)
  | Reject (msg : string)
  | ThrowTypeError.

(** claude_code [api/request.ts], success handler of the response interceptor. *)
Definition claude_response (b : Body) : Settled :=
  match b with
  | BObj e =>
      match env_code e with
      | CNum c =>
          if c =? 1000 then ResolveField (env_data e)
          else if c =? 1001 then Reject (js_or (env_message e) "操作失败")
          else Reject (js_or (env_message e) "请求失败")
      | _ => ResolveBody b
      end
  | BNull => ThrowTypeError
  | BOther _ => ResolveBody b
  end.

(** qwn_code [api/http.ts]: [const { code, message } = response.data;
    if (code !== 1000) reject; return response.data]. *)
Definition qwn_response (b : Body) : Settled :=
  match b with
  | BObj e =>
      match env_code e with
      | CNum c => if c =? 1000 then ResolveBody b else Reject (js_or (env_message e) "请求失败")
      | _ => Reject (js_or (env_message e) "请求失败")
      end
  | BNull => ThrowTypeError
  | BOther _ => Reject "请求失败"
  end.

(** [unnamed/part_021]: [if (data && typeof data === 'object' && 'code' in data)]. *)
Definition part021_response (b : Body) : Settled :=
  match b with
  | BObj e =>
      match env_code e with
      | CAbsent => ResolveBody b
      | CNum c => if c =? 1000 then ResolveField (env_result e)
                  else Reject (js_or (env_message e) "业务错误")
      | COther _ => Reject (js_or (env_message e) "业务错误")
      end
  | BNull => ResolveBody b
  | BOther _ => ResolveBody b
  end.

Definition ok_envelope : Envelope := mkEnvelope (CNum 1000) (Some "success") (Some "payload") (Some "payload").

(* ================================================================== *)
(** ** Navigation guard (unnamed/part_013: router.beforeEach) *)

(** The application state the guard reads and writes: the user store, the
    menu store's [menus], and the router's registered routes. *)
Record App := mkApp {
  app_user : UserState;
  app_menus : list MenuItem;
  app_routes : list RouteRecord
}.

Definition set_app_user (u : UserState) (a : App) : App :=
  mkApp u (app_menus a) (app_routes a).
Definition set_app_menus (m : list MenuItem) (a : App) : App :=
  mkApp (app_user a) m (app_routes a).
Definition set_app_routes (t : list RouteRecord) (a : App) : App :=
  mkApp (app_user a) (app_menus a) t.

(** Run a user-store action on the application state. *)
Definition on_user {A} (m : M UserState A) : M App A :=
  fun a => let '(o, u) := m (app_user a) in (o, set_app_user u a).

(** [fetchMenus]: [menus.value = buildMenuTree(data || [])]. *)
Definition fetchMenus (srv : Server) : M App (list MenuItem) :=
  let* data := await (srv_menu srv) in
  let* _ := modify (set_app_menus (buildMenuTree (default [] data))) in
  ret (buildMenuTree (default [] data)).

(** The router's [addRoute], which may throw (for example on a record it
    refuses); [None] is a thrown error. *)
Definition AddRoute := string -> RouteRecord -> list RouteRecord -> option (list RouteRecord).

(** [dynamicRoutes.forEach(route => router.addRoute('Layout', route))]: a
    throwing call leaves the routes added before it in place. *)
Fixpoint add_all (addRoute : AddRoute) (rs : list RouteRecord) : M App unit :=
  match rs with
  | [] => ret tt
  | r :: rest => fun a =>
      match addRoute "Layout" r (app_routes a) with
      | Some t => add_all addRoute rest (set_app_routes t a)
      | None => (Throw "addRoute", a)
      end
  end.

(** The body of the guard's [try] block, up to [next({ ...to, replace: true })]. *)
Definition hydrate (srv : Server) (addRoute : AddRoute) : M App unit :=
  let* _ := on_user (fetchUserInfo srv) in
  let* _ := fetchMenus srv in
  let* a := get in
  add_all addRoute (generateRoutes (app_menus a)).

(** The navigation target: [to.path], [to.fullPath], [to.meta.public] and
    [to.meta.perms]. *)
Record Target := mkTarget {
  to_path : string;
  to_fullPath : string;
  to_public : bool;
  to_perms : option string
}.

(** The argument of [next]: [next()], [next(path)], the login redirect
    [next({ path: '/login', query: { redirect } })], and the re-entry
    [next({ ...to, replace: true })]. *)
Inductive Next :=
  | NextAllow
  | NextPath (path : string)
  | NextLogin (redirect : string)
  | NextReplace (t : Target).

Definition beforeEach (srv : Server) (addRoute : AddRoute) (to : Target) (a : App) : Next * App :=
  if to_public to then
    (if String.eqb (to_path to) "/login" && isLoggedIn (app_user a)
     then (NextPath "/", a) else (NextAllow, a))
  else if negb (isLoggedIn (app_user a)) then (NextLogin (to_fullPath to), a)
  else match userInfo (app_user a) with
       | None =>
           match hydrate srv addRoute a with
           | (Ok _, a') => (NextReplace to, a')
           | (Throw _, a') => (NextPath "/login", set_app_user (logout (app_user a')) a')
           end
       | Some _ =>
           if truthy_str (to_perms to) && negb (hasPermission (app_user a) (default "" (to_perms to)))
           then (NextPath "/403", a) else (NextAllow, a)
       end.

(** A hydration step fails: the profile, permission or menu request is
    rejected, or the router refuses every route while the fetched menu
    yields at least one. *)
Definition hydration_step_fails (srv : Server) (addRoute : AddRoute) : Prop :=
  (exists e, srv_person srv = Rejected e) \/
  (exists e, srv_perms srv = Rejected e) \/
  (exists e, srv_menu srv = Rejected e) \/
  ((forall r t, addRoute "Layout" r t = None) /\
   exists d, srv_menu srv = Resolved d /\ generateRoutes (buildMenuTree (default [] d)) <> []).

(** The [try] block throws, whatever the step. *)
Definition hydration_fails (srv : Server) (addRoute : AddRoute) (a : App) : Prop :=
  exists e a', hydrate srv addRoute a = (Throw e, a').

(** Concrete sessions and server answers for the examples. *)
Definition empty_storage : Storage := mkStorage None None None.
Definition empty_session : UserState := mkUserState "" "" None [] empty_storage [].
Definition plain_user : UserInfo := mkUserInfo 7 "alice" "alice" [] [].
Definition admin_user : UserInfo := mkUserInfo 1 "admin" "admin" [] [].

(** A logged-in session holding an access and a refresh token. *)
Definition active_session : UserState :=
  mkUserState "t1" "r1" (Some plain_user) ["sys:user:list"]
    (mkStorage (Some "t1") (Some "r1") (Some plain_user)) [].

Definition admin_session : UserState :=
  mkUserState "t0" "r0" (Some admin_user) [] (mkStorage (Some "t0") (Some "r0") (Some admin_user)) [].

Definition person_alice : PersonData := mkPersonData 7 "alice" None None None.

(** Every request succeeds. *)
Definition server_ok : Server :=
  mkServer (Resolved (mkTokenData "t1" (Some "r1"))) (Resolved person_alice)
    (Resolved (mkPermsData (Some ["sys:user:list"]))) (Resolved (mkTokenData "t2" None))
    (Resolved (Some scenario_menu)).

(** Login succeeds, then the profile request fails. *)
Definition server_person_down : Server :=
  mkServer (Resolved (mkTokenData "t1" (Some "r1"))) (Rejected "Network Error")
    (Resolved (mkPermsData None)) (Rejected "Network Error") (Rejected "Network Error").

(** The refresh request is rejected (expired refresh token). *)
Definition server_refresh_expired : Server :=
  mkServer (Rejected "unused") (Resolved person_alice) (Resolved (mkPermsData None))
    (Rejected "refresh token expired") (Resolved None).

(** Token and profile both present or both absent. *)
Definition session_consistent (s : UserState) : bool :=
  Bool.eqb (isLoggedIn s) (match userInfo s with Some _ => true | None => false end).

(* ================================================================== *)
(** A logged-in tab just reloaded: tokens in storage, no profile yet. *)
Definition reloaded_app : App :=
  mkApp (mkUserState "t1" "r1" None [] (mkStorage (Some "t1") (Some "r1") None) []) [] [].

Definition supply_target : Target := mkTarget "/rk/supply" "/rk/supply" false None.

Definition vue_router : AddRoute := fun p r t => Some (vue_addRoute p r t).

(* ================================================================== *)
(** ** Views over menu trees *)

(** The nodes of a tree in the order [traverse] visits them. *)
Fixpoint subtree (t : MenuItem) : list MenuItem :=
  match t with
  | mkMenuItem _ _ _ _ _ _ _ _ _ _ cs =>
      t :: (fix go (l : list MenuItem) : list MenuItem :=
              match l with [] => [] | x :: r => subtree x ++ go r end) cs
  end.

(** [item.type === 1 && item.router]. *)
Definition navigable (item : MenuItem) : bool := (type item =? 1) && truthy_str (router item).

(** The route object [generateRoutes] pushes for a navigable item. *)
Definition route_of (item : MenuItem) : RouteRecord :=
  mkRoute (default "" (router item)) (name item) (name item) (icon item)
    (keepAlive item) (perms item).

(** A root record with identifier 0 and a page whose [parentId] is 0. *)
Definition zero_parent_menu : list MenuItem :=
  [menu_rec 0 None "Home" (Some "/home") 1 1 true;
   menu_rec 5 (Some 0) "Orders" (Some "/orders") 1 2 true].

(* ================================================================== *)
(** ** Store initialisation and the request interceptor *)

(** The state [useUserStore] starts from: [localStorage.getItem(TOKEN_KEY) || ''],
    the same for the refresh token, the parsed stored profile, and
    [permissions = ref([])]. *)
Definition init_user (st : Storage) : UserState :=
  mkUserState (default "" (ls_token st)) (default "" (ls_refresh_token st))
    (ls_user_info st) [] st [].

(** [request.interceptors.request] (claude_code api/request.ts): the
    [Authorization] header it sets, if any. *)
Definition auth_header (s : UserState) : option string :=
  if String.eqb (token s) "" then None else Some ("Bearer " ++ token s)%string.

(** [onMounted] of claude_code [App.vue]: with a token, fetch the profile
    and the permissions, and log out if that fails. *)
Definition App_onMounted (srv : Server) (s : UserState) : UserState :=
  if String.eqb (token s) "" then s
  else match fetchUserInfo srv s with
       | (Ok _, s') => s'
       | (Throw _, s') => logout s'
       end.

(** A protected page that requires a permission. *)
Definition perms_target : Target := mkTarget "/rk/supply" "/rk/supply" false (Some "sys:user:list").

(* ================================================================== *)
(** ** Error handler of the response interceptor (claude_code api/request.ts) *)

(** [window.__authErrorShowing], the number of confirmation boxes opened so
    far and the [ElMessage.error] toasts shown, in order. *)
Record UiState := mkUi {
  authErrorShowing : bool;
  dialogs_opened : nat;
  toasts : list string
}.

(** A rejected request: with an HTTP [response] ([status] and the body's
    [message]), or without one (the [error.message]). *)
Inductive AxiosError :=
  | WithResponse (status : Z) (message : option string)
  | NoResponse (message : string).

Definition AUTH_ERROR_CODES : list Z := [401; 403].

(** [getHttpErrorMessage]: the table, else [`请求失败 (${status})`]. *)
Definition getHttpErrorMessage (status : Z) : string :=
  if status =? 400 then "请求参数错误"
  else if status =? 401 then "未授权，请登录"
  else if status =? 403 then "拒绝访问"
  else if status =? 404 then "请求地址不存在"
  else if status =? 405 then "请求方法不允许"
  else if status =? 408 then "请求超时"
  else if status =? 500 then "服务器内部错误"
  else if status =? 501 then "服务未实现"
  else if status =? 502 then "网关错误"
  else if status =? 503 then "服务不可用"
  else if status =? 504 then "网关超时"
  else if status =? 505 then "HTTP版本不支持"
  else ("请求失败 (" ++ pretty status ++ ")")%string.

(** [String.prototype.includes]. *)
Definition str_includes (s needle : string) : bool :=
  match String.index 0 needle s with Some _ => true | None => false end.

Definition toast (m : string) (u : UiState) : UiState :=
  mkUi (authErrorShowing u) (dialogs_opened u) (toasts u ++ [m]).

(** The error handler's effect on the page, up to [Promise.reject(error)]. *)
Definition on_response_error (e : AxiosError) (u : UiState) : UiState :=
  match e with
  | WithResponse status message =>
      if existsb (Z.eqb status) AUTH_ERROR_CODES then
        if authErrorShowing u then u
        else mkUi true (S (dialogs_opened u)) (toasts u)
      else toast (js_or message (getHttpErrorMessage status)) u
  | NoResponse message =>
      if str_includes message "timeout" then toast "请求超时，请稍后重试" u
      else if str_includes message "Network Error" then toast "网络错误，请检查网络连接" u
      else toast "请求失败，请稍后重试" u
  end.

(** Several requests failing in turn. *)
Definition on_response_errors (es : list AxiosError) (u : UiState) : UiState :=
  fold_left (fun u e => on_response_error e u) es u.

(** The box settles: on confirm [.then(() => { userStore.logout();
    router.push('/login') })], and in any case [.finally] clears the flag. *)
Definition auth_dialog_settled (confirmed : bool) (u : UiState) (s : UserState) : UiState * UserState :=
  (mkUi false (dialogs_opened u) (toasts u),
   if confirmed then push_route "/login" (logout s) else s).

Definition is_auth_error (e : AxiosError) : bool :=
  match e with WithResponse status _ => existsb (Z.eqb status) AUTH_ERROR_CODES | NoResponse _ => false end.

(** Login and profile succeed, the permission request fails. *)
Definition server_perms_down : Server :=
  mkServer (Resolved (mkTokenData "t1" (Some "r1"))) (Resolved person_alice)
    (Rejected "Network Error") (Rejected "unused") (Resolved (Some scenario_menu)).

(** The identifiers of the nodes below [t] (itself included) whose whole
    chain of ancestors up to [t] is visible, in pre-order. *)
Fixpoint visible_ids (t : MenuItem) : list Z :=
  match t with
  | mkMenuItem i _ _ _ _ _ _ _ _ _ cs =>
      if visible t
      then i :: (fix go (l : list MenuItem) : list Z :=
                   match l with [] => [] | x :: r => visible_ids x ++ go r end) cs
      else []
  end.

(** * Proofs *)
(* ================================================================== *)

(** ** Menu tree *)

Example scenario_menu_tree :
  map (fun t => (id t, map id (children t))) (filterVisibleMenus (buildMenuTree scenario_menu))
  = [(1, [2])].
Proof. vm_compute. reflexivity. Qed.

Lemma visible_children_eq (t : MenuItem) :
  visible_children t = filterVisibleMenus (children t).
Proof.
  destruct t as [? ? ? ? ? ? ? ? ? ? cs]; simpl.
  unfold filterVisibleMenus, filter_level; f_equal.
  induction cs as [|x r IH]; simpl; [done|].
  destruct (visible x); simpl; by rewrite IH.
Qed.


Lemma tree_sorted_eq (t : MenuItem) :
  tree_sorted t = forest_sorted (children t).
Proof.
  destruct t as [? ? ? ? ? ? ? ? ? ? cs]; simpl; unfold forest_sorted; f_equal.
Qed.

Lemma sorted_orders_cons (y : MenuItem) (l : list MenuItem) :
  sorted_orders (y :: l) = true <->
  (match l with [] => True | z :: _ => orderNum y <= orderNum z end) /\ sorted_orders l = true.
Proof.
  destruct l as [|z r]; simpl; [tauto|].
  rewrite andb_true_iff, Z.leb_le. tauto.
Qed.

Lemma insert_by_order_sorted (x : MenuItem) (l : list MenuItem) :
  sorted_orders l = true -> sorted_orders (insert_by_order x l) = true.
Proof.
  induction l as [|y r IH]; simpl; [done|].
  intros Hs. apply sorted_orders_cons in Hs as [Hhd Hr].
  destruct (orderNum x <? orderNum y) eqn:E.
  - apply sorted_orders_cons. split; [apply Z.ltb_lt in E; lia|].
    apply sorted_orders_cons. done.
  - apply Z.ltb_ge in E. apply sorted_orders_cons. split; [|by apply IH].
    destruct r as [|z r']; simpl; [lia|].
    destruct (orderNum x <? orderNum z); simpl; lia.
Qed.

Lemma insert_by_order_perm (x : MenuItem) (l : list MenuItem) :
  Permutation (insert_by_order x l) (x :: l).
Proof.
  induction l as [|y r IH]; simpl; [done|].
  destruct (orderNum x <? orderNum y); [done|].
  rewrite IH. apply perm_swap.
Qed.

Lemma sort_by_order_spec (l : list MenuItem) :
  sorted_orders (sort_by_order l) = true /\ Permutation (sort_by_order l) l.
Proof.
  unfold sort_by_order.
  assert (Hg : forall acc, sorted_orders acc = true ->
    sorted_orders (fold_left (fun acc x => insert_by_order x acc) l acc) = true /\
    Permutation (fold_left (fun acc x => insert_by_order x acc) l acc) (l ++ acc)).
  { induction l as [|x r IH]; intros acc Hacc; simpl; [done|].
    destruct (IH (insert_by_order x acc)) as [H1 H2]; [by apply insert_by_order_sorted|].
    split; [done|]. rewrite H2, insert_by_order_perm.
    symmetry. apply Permutation_middle. }
  destruct (Hg [] eq_refl) as [H1 H2]. rewrite app_nil_r in H2. done.
Qed.

Lemma filter_level_sorted (f : MenuItem -> list MenuItem) (l : list MenuItem) :
  Forall (fun x => forest_sorted (f x) = true) l ->
  forest_sorted (filter_level f l) = true.
Proof.
  intros Hall. unfold forest_sorted, filter_level.
  destruct (sort_by_order_spec
              (map (fun item => with_children item (f item)) (List.filter visible l)))
    as [Hs Hp].
  rewrite Hs; simpl. apply forallb_forall. intros t Ht.
  apply (Permutation_in _ Hp), in_map_iff in Ht as (x & <- & Hx).
  apply filter_In in Hx as [Hx _].
  rewrite tree_sorted_eq. simpl. exact (proj1 (List.Forall_forall _ _) Hall x Hx).
Qed.

Lemma visible_children_sorted (t : MenuItem) :
  forest_sorted (visible_children t) = true.
Proof.
  induction t using MenuItem_ind'.
  rewrite visible_children_eq. by apply filter_level_sorted.
Qed.


(** *** The heap built by [buildMenuTree] *)

(** Every node object is stored under its own identifier. *)
Definition well_keyed (h : Heap) : Prop :=
  forall x n, h !! x = Some n -> id (node_item n) = x.

Definition fresh_heap (h : Heap) : Prop :=
  forall x n, h !! x = Some n -> id (node_item n) = x /\ node_children n = [].

Lemma first_pass_fold (l : list MenuItem) (h0 : Heap) :
  fresh_heap h0 ->
  let h := fold_left (fun h item => <[id item := mkNode (with_children item []) []]> h) l h0 in
  fresh_heap h /\
  forall x, is_Some (h !! x) <-> In x (map id l) \/ is_Some (h0 !! x).
Proof.
  revert h0; induction l as [|it r IH]; intros h0 Hk; simpl.
  - split; [done|]. intros x. tauto.
  - destruct (IH (<[id it := mkNode (with_children it []) []]> h0)) as [Hk' Hx].
    { intros x n. rewrite lookup_insert. case_decide; [|apply Hk].
      intros [= <-]. done. }
    split; [done|]. intros x. rewrite Hx, lookup_insert.
    case_decide; subst; split; intros Hin; simpl in *;
      first [ tauto | (right; eexists; reflexivity) | (left; left; reflexivity)
            | (destruct Hin as [[? | ?] | ?]; [congruence | tauto | tauto]) ].
Qed.

Lemma first_pass_spec (items : list MenuItem) :
  fresh_heap (first_pass items) /\
  forall x, is_Some (first_pass items !! x) <-> In x (map id items).
Proof.
  destruct (first_pass_fold items ∅) as [H1 H2].
  { intros x n. rewrite lookup_empty. done. }
  split; [done|]. intros x. unfold first_pass. rewrite H2, lookup_empty.
  split; [intros [? | [? ?]]; [done | done] | tauto].
Qed.

Lemma mem_spec (x : Z) (l : list Z) : mem x l = true <-> In x l.
Proof.
  unfold mem. rewrite existsb_exists. split.
  - intros (y & Hy & E). apply Z.eqb_eq in E. subst. done.
  - intros Hx. exists x. split; [done|]. apply Z.eqb_refl.
Qed.

Lemma push_child_lookup (p c x : Z) (h : Heap) :
  push_child p c h !! x =
  (fun n => mkNode (node_item n) (node_children n ++ (if p =? x then [c] else []))) <$> h !! x.
Proof.
  unfold push_child. destruct (h !! p) as [n|] eqn:Ep.
  - rewrite lookup_insert. case_decide as Hpx.
    + subst. rewrite Ep, Z.eqb_refl. done.
    + apply Z.eqb_neq in Hpx. rewrite Hpx.
      destruct (h !! x) as [[ni nc]|]; simpl; [by rewrite app_nil_r | done].
  - destruct (Z.eqb_spec p x); subst.
    + rewrite Ep. done.
    + destruct (h !! x) as [[ni nc]|]; simpl; [by rewrite app_nil_r | done].
Qed.

Lemma second_pass_fold (D : list Z) (l : list MenuItem) (h : Heap) (roots : list Z) :
  (forall x, is_Some (h !! x) <-> In x D) ->
  let r := fold_left second_step l (h, roots) in
  snd r = roots ++ map id (List.filter (is_root_of D) l) /\
  forall x, fst r !! x =
    (fun n => mkNode (node_item n) (node_children n ++ map id (List.filter (child_of D x) l)))
      <$> h !! x.
Proof.
  revert h roots; induction l as [|it r IH]; intros h roots Hdom; simpl.
  - split; [by rewrite app_nil_r|]. intros x.
    destruct (h !! x) as [[ni nc]|]; simpl; [by rewrite app_nil_r | done].
  - unfold is_root_of at 1, child_of at 1, link_of at 1 2.
    destruct (parentId it) as [p|] eqn:Ep.
    + assert (Eb : bool_decide (is_Some (h !! p)) = mem p D).
      { destruct (mem p D) eqn:Em.
        - apply bool_decide_eq_true. apply Hdom, mem_spec. done.
        - apply bool_decide_eq_false. rewrite Hdom, <- mem_spec, Em. done. }
      rewrite Eb.
      destruct (truthy_parent (Some p) && mem p D) eqn:Et.
      * destruct (IH (push_child p (id it) h) roots) as [H1 H2].
        { intros x. rewrite push_child_lookup, <- Hdom.
          destruct (h !! x); simpl; split; intros []; eauto. }
        split; [done|]. intros x. rewrite H2, push_child_lookup.
        destruct (h !! x) as [[ni nc]|]; simpl; [|done].
        rewrite <- app_assoc. destruct (p =? x); done.
      * destruct (IH h (roots ++ [id it]) Hdom) as [H1 H2].
        split; [rewrite H1, <- app_assoc; done | done].
    + destruct (IH h (roots ++ [id it]) Hdom) as [H1 H2].
      split; [rewrite H1, <- app_assoc; done | done].
Qed.

Lemma build_heap_spec (items : list MenuItem) :
  let D := map id items in
  let r := second_pass items (first_pass items) in
  snd r = map id (List.filter (is_root_of D) items) /\
  forall x,
    (In x D -> exists n, fst r !! x = Some n /\ id (node_item n) = x /\
                node_children n = map id (List.filter (child_of D x) items)) /\
    (~ In x D -> fst r !! x = None).
Proof.
  intros D r. destruct (first_pass_spec items) as [Hf Hd].
  destruct (second_pass_fold D items (first_pass items) [] Hd) as [H1 H2].
  split; [done|]. intros x. unfold r, second_pass. rewrite H2. split.
  - intros Hx. apply Hd in Hx as [n En]. rewrite En. simpl.
    destruct (Hf x n En) as [Hi Hc]. eexists. split; [done|]. simpl. rewrite Hc. done.
  - intros Hx. destruct (first_pass items !! x) eqn:En; [|done].
    exfalso. apply Hx, Hd. eexists. done.
Qed.

(** *** Counting occurrences *)

Lemma preorder_eq (t : MenuItem) : preorder t = id t :: flatten (children t).
Proof.
  destruct t as [i ? ? ? ? ? ? ? ? ? cs]. simpl. f_equal.
Qed.

Lemma count_occ_flat_map (F : Z -> list Z) (L : list Z) (y : Z) :
  count_occ Z.eq_dec (flat_map F L) y = list_sum (map (fun c => count_occ Z.eq_dec (F c) y) L).
Proof.
  induction L as [|c L IH]; simpl; [done|]. rewrite count_occ_app, IH. done.
Qed.

Lemma list_sum_map_add {A : Type} (f g : A -> nat) (L : list A) :
  list_sum (map (fun c => (f c + g c)%nat) L) = (list_sum (map f L) + list_sum (map g L))%nat.
Proof. induction L as [|c L IH]; simpl; [done|]. rewrite IH. lia. Qed.

Lemma list_sum_map_zero {A : Type} (L : list A) : list_sum (map (fun _ => 0%nat) L) = 0%nat.
Proof. induction L; simpl; lia. Qed.

Lemma length_filter_cons {A : Type} (P : A -> bool) (k : A) (K : list A) :
  length (List.filter P (k :: K)) = ((if P k then 1 else 0) + length (List.filter P K))%nat.
Proof. simpl. destruct (P k); done. Qed.

Lemma indicator_sum (o : option Z) (L : list Z) :
  List.NoDup L ->
  list_sum (map (fun c => if bool_decide (o = Some c) then 1%nat else 0%nat) L) =
  (if match o with Some z => mem z L | None => false end then 1 else 0)%nat.
Proof.
  induction L as [|c L IH]; intros Hnd; simpl; [by destruct o|].
  apply NoDup_cons_iff in Hnd as [Hc Hnd]. rewrite IH by done.
  destruct o as [z|]; simpl.
  - case_bool_decide as E.
    + injection E as ->. rewrite Z.eqb_refl. simpl.
      destruct (mem c L) eqn:Em; [apply mem_spec in Em; done | done].
    + assert (z <> c) by congruence. apply Z.eqb_neq in H as ->. done.
  - done.
Qed.

Lemma sum_count_swap (g : nat -> option Z) (L : list Z) (K : list nat) :
  List.NoDup L ->
  list_sum (map (fun c => length (List.filter (fun k => bool_decide (g k = Some c)) K)) L) =
  length (List.filter (fun k => match g k with Some c => mem c L | None => false end) K).
Proof.
  intros Hnd. induction K as [|k K IH].
  - simpl. apply list_sum_map_zero.
  - rewrite length_filter_cons, <- IH.
    rewrite (map_ext _ (fun c => ((if bool_decide (g k = Some c) then 1 else 0) +
       length (List.filter (fun j => bool_decide (g j = Some c)) K))%nat))
      by (intros c; exact (length_filter_cons _ k K)).
    rewrite list_sum_map_add, indicator_sum by done. done.
Qed.

Lemma length_filter_shift (P : nat -> bool) (K : list nat) :
  length (List.filter P (map S K)) = length (List.filter (fun k => P (S k)) K).
Proof.
  induction K as [|k K IH]; [done|]. rewrite map_cons, !length_filter_cons, IH. done.
Qed.

(** *** Parent links of a list of records with distinct identifiers *)

Section Links.
Variable items : list MenuItem.
Hypothesis Hnd : List.NoDup (map id items).
Let D := map id items.

Lemma id_inj (a b : MenuItem) : In a items -> In b items -> id a = id b -> a = b.
Proof.
  clear D. revert Hnd. induction items as [|c l IH]; intros Hn Ha Hb E; [done|].
  simpl in Hn. apply NoDup_cons_iff in Hn as [Hc Hn].
  destruct Ha as [<- | Ha], Hb as [<- | Hb]; try done.
  - exfalso. apply Hc. rewrite E. apply in_map. done.
  - exfalso. apply Hc. rewrite <- E. apply in_map. done.
  - by apply IH.
Qed.

Lemma link_item (it : MenuItem) : In it items -> link items (id it) = link_of D it.
Proof.
  intros Hit. unfold link.
  destruct (List.find (fun it' => id it' =? id it) items) as [it'|] eqn:Ef.
  - apply find_some in Ef as [Hin E]. apply Z.eqb_eq in E.
    rewrite (id_inj it' it) by done. done.
  - exfalso. eapply find_none in Ef; [|exact Hit]. rewrite Z.eqb_refl in Ef. done.
Qed.

Lemma link_of_in (it : MenuItem) (p : Z) : link_of D it = Some p -> In p D.
Proof.
  unfold link_of. destruct (parentId it) as [q|]; [|done].
  destruct (truthy_parent (Some q) && mem q D) eqn:E; [|done].
  intros [= <-]. apply andb_true_iff in E as [_ E]. apply mem_spec. done.
Qed.

Lemma link_some (x p : Z) : link items x = Some p -> In x D /\ In p D.
Proof.
  unfold link. destruct (List.find (fun it' => id it' =? x) items) as [it|] eqn:Ef; [|done].
  apply find_some in Ef as [Hin E]. apply Z.eqb_eq in E. intros Hl. split.
  - rewrite <- E. apply in_map. done.
  - eapply link_of_in. exact Hl.
Qed.

Lemma link_not_in (x : Z) : ~ In x D -> link items x = None.
Proof.
  intros Hx. destruct (link items x) as [p|] eqn:E; [|done].
  exfalso. apply Hx. apply (link_some x p E).
Qed.

Lemma nodup_map_filter (P : MenuItem -> bool) (l : list MenuItem) :
  List.NoDup (map id l) -> List.NoDup (map id (List.filter P l)).
Proof.
  induction l as [|a l IH]; simpl; intros Hn; [constructor|].
  apply NoDup_cons_iff in Hn as [Ha Hn]. destruct (P a); simpl; [|by apply IH].
  constructor; [|by apply IH]. intros Hin. apply Ha.
  apply in_map_iff in Hin as (b & Eb & Hb). apply filter_In in Hb as [Hb _].
  rewrite <- Eb. apply in_map. done.
Qed.

Lemma in_children (x c : Z) :
  In c (map id (List.filter (child_of D x) items)) <-> link items c = Some x.
Proof.
  split.
  - intros (it & <- & Hit)%in_map_iff. apply filter_In in Hit as [Hit Hc].
    rewrite link_item by done. unfold child_of in Hc.
    destruct (link_of D it) as [p|]; [|done]. apply Z.eqb_eq in Hc. subst. done.
  - intros Hl. destruct (link_some c x Hl) as [Hc _].
    apply in_map_iff in Hc as (it & <- & Hit). apply in_map, filter_In. split; [done|].
    rewrite link_item in Hl by done. unfold child_of. rewrite Hl. apply Z.eqb_refl.
Qed.

Lemma in_roots (c : Z) :
  In c (map id (List.filter (is_root_of D) items)) <-> In c D /\ link items c = None.
Proof.
  split.
  - intros (it & <- & Hit)%in_map_iff. apply filter_In in Hit as [Hit Hc].
    split; [apply in_map; done|]. rewrite link_item by done. unfold is_root_of in Hc.
    destruct (link_of D it); done.
  - intros [Hc Hl]. apply in_map_iff in Hc as (it & <- & Hit). apply in_map, filter_In.
    split; [done|]. rewrite link_item in Hl by done. unfold is_root_of. rewrite Hl. done.
Qed.
End Links.

(** *** Occurrences in the flattened tree *)

Lemma count_occ_cons_indicator (x y : Z) (l : list Z) :
  count_occ Z.eq_dec (x :: l) y =
  ((if bool_decide (Some y = Some x) then 1 else 0) + count_occ Z.eq_dec l y)%nat.
Proof.
  destruct (Z.eq_dec x y) as [<- | Hxy].
  - rewrite count_occ_cons_eq, bool_decide_true by done. done.
  - rewrite count_occ_cons_neq, bool_decide_false by congruence. done.
Qed.

Section Flatten.
Variable items : list MenuItem.
Hypothesis Hnd : List.NoDup (map id items).
Let D := map id items.
Let H := fst (second_pass items (first_pass items)).

Lemma mem_children (x z : Z) :
  mem z (map id (List.filter (child_of D x) items)) = bool_decide (link items z = Some x).
Proof.
  destruct (mem _ _) eqn:E; symmetry.
  - apply bool_decide_eq_true. apply mem_spec in E. apply in_children in E; done.
  - apply bool_decide_eq_false. intros Hl. apply (in_children items Hnd) in Hl.
    apply mem_spec in Hl. unfold D in E. congruence.
Qed.

Lemma materialize_count (f : nat) (x y : Z) :
  In x D ->
  count_occ Z.eq_dec (preorder (materialize f H x)) y =
  length (List.filter (fun k => bool_decide (anc items k y = Some x)) (seq 0 (S f))).
Proof.
  revert x. induction f as [|f IH]; intros x Hx;
    destruct (proj1 (proj2 (build_heap_spec items) x) Hx) as (n & En & Hi & Hc);
    cbn [materialize]; fold H in En; rewrite En.
  - rewrite preorder_eq. simpl. rewrite Hi.
    destruct (Z.eq_dec x y) as [<- | Hxy].
    + rewrite bool_decide_true by done. done.
    + rewrite bool_decide_false by congruence. done.
  - change (seq 0 (S (S f))) with (0%nat :: seq 1 (S f)).
    rewrite <- seq_shift, length_filter_cons, length_filter_shift.
    change (anc items 0 y) with (Some y).
    rewrite preorder_eq. cbn [with_children id children]. rewrite Hi.
    unfold flatten. rewrite flat_map_concat_map, map_map, <- flat_map_concat_map.
    rewrite count_occ_cons_indicator. f_equal.
    rewrite count_occ_flat_map, Hc.
    rewrite (map_ext_in _ (fun c => length (List.filter
               (fun k => bool_decide (anc items k y = Some c)) (seq 0 (S f))))).
    2:{ intros c Hcin. apply IH. apply in_children in Hcin; [|done].
        apply (link_some items c x Hcin). }
    rewrite sum_count_swap by (apply nodup_map_filter; done).
    rewrite (filter_ext _ (fun k => bool_decide (anc items (S k) y = Some x))).
    2:{ intros k. simpl. destruct (anc items k y) as [z|].
        - apply mem_children.
        - rewrite bool_decide_false; done. }
    done.
Qed.
End Flatten.

(** *** Parent chains *)

Section Chain.
Variable items : list MenuItem.
Let D := map id items.

Lemma anc_none_persist (y : Z) (k j : nat) :
  anc items k y = None -> anc items (k + j) y = None.
Proof.
  intros E. induction j as [|j IH]; [by rewrite Nat.add_0_r|].
  rewrite Nat.add_succ_r. simpl. rewrite IH. done.
Qed.

Lemma anc_shift (y : Z) (a b j : nat) :
  anc items a y = anc items b y -> anc items (a + j) y = anc items (b + j) y.
Proof.
  intros E. induction j as [|j IH]; [by rewrite !Nat.add_0_r|].
  rewrite !Nat.add_succ_r. simpl. rewrite IH. done.
Qed.

Lemma anc_in (y z : Z) (k : nat) : In y D -> anc items k y = Some z -> In z D.
Proof.
  intros Hy. revert z. induction k as [|k IH]; simpl; intros z E.
  - injection E as <-. done.
  - destruct (anc items k y) as [w|]; [|done]. apply (link_some items w z E).
Qed.

(** [m] is the index of the last record on the chain of [y]. *)
Definition chain_end (y : Z) (m : nat) : Prop :=
  is_Some (anc items m y) /\ anc items (S m) y = None.

Lemma chain_end_exists (y : Z) (K : nat) :
  anc items K y = None -> exists m, (m < K)%nat /\ chain_end y m.
Proof.
  induction K as [|K IH]; simpl; [done|]. intros E.
  destruct (anc items K y) as [z|] eqn:Ez.
  - exists K. split; [lia|]. split; [eexists; done|]. simpl. rewrite Ez. done.
  - destruct (IH eq_refl) as (m & Hm & Hc). exists m. split; [lia|done].
Qed.

Lemma chain_end_unique (y : Z) (a b : nat) : chain_end y a -> chain_end y b -> a = b.
Proof.
  intros [Ha Ha'] [Hb Hb'].
  destruct (Nat.lt_trichotomy a b) as [Hab | [Hab | Hab]]; [|done|].
  - exfalso. pose proof (anc_none_persist y (S a) (b - S a) Ha') as E.
    replace (S a + (b - S a))%nat with b in E by lia. rewrite E in Hb. by destruct Hb.
  - exfalso. pose proof (anc_none_persist y (S b) (a - S b) Hb') as E.
    replace (S b + (a - S b))%nat with a in E by lia. rewrite E in Ha. by destruct Ha.
Qed.

Lemma chain_prefix_some (y : Z) (m k : nat) :
  chain_end y m -> (k <= m)%nat -> is_Some (anc items k y).
Proof.
  intros [Hm _] Hk. destruct (anc items k y) eqn:E; [eexists; done|].
  pose proof (anc_none_persist y k (m - k) E) as E'.
  replace (k + (m - k))%nat with m in E' by lia. rewrite E' in Hm. by destruct Hm.
Qed.

(** The records of a chain are distinct, hence a chain is no longer than
    the list of records. *)
Lemma chain_end_bound (y : Z) (m : nat) :
  In y D -> chain_end y m -> (m < length items)%nat.
Proof.
  intros Hy Hm.
  assert (Hinj : forall a b, (a < b <= m)%nat -> anc items a y <> anc items b y).
  { intros a b Hab E.
    pose proof (anc_shift y a b (S m - b) E) as E'.
    replace (b + (S m - b))%nat with (S m) in E' by lia. rewrite (proj2 Hm) in E'.
    destruct (chain_prefix_some y m (a + (S m - b)) Hm ltac:(lia)) as [w Ew]. congruence. }
  set (L := map (fun k => default 0 (anc items k y)) (seq 0 (S m))).
  assert (HL : List.NoDup L).
  { apply NoDup_map_NoDup_ForallPairs; [|apply seq_NoDup].
    intros a b Ha Hb Eab. apply in_seq in Ha, Hb.
    destruct (chain_prefix_some y m a Hm ltac:(lia)) as [za Eza].
    destruct (chain_prefix_some y m b Hm ltac:(lia)) as [zb Ezb].
    rewrite Eza, Ezb in Eab. simpl in Eab. subst zb.
    destruct (Nat.lt_trichotomy a b) as [Hab | [Hab | Hab]]; [|done|].
    - exfalso. apply (Hinj a b); [lia | congruence].
    - exfalso. apply (Hinj b a); [lia | congruence]. }
  assert (Hincl : incl L D).
  { intros z (k & <- & Hk)%in_map_iff. apply in_seq in Hk.
    destruct (chain_prefix_some y m k Hm ltac:(lia)) as [w Ew]. rewrite Ew. simpl.
    apply (anc_in y w k Hy Ew). }
  pose proof (NoDup_incl_length HL Hincl) as Hlen.
  unfold L, D in Hlen. rewrite !length_map, length_seq in Hlen. lia.
Qed.
End Chain.

(** *** The forest returned by [buildMenuTree] *)

Lemma length_filter_none {A : Type} (P : A -> bool) (l : list A) :
  (forall k, In k l -> P k = false) -> length (List.filter P l) = 0%nat.
Proof.
  induction l as [|a l IH]; intros Hf; [done|]. rewrite length_filter_cons, Hf by (left; done).
  rewrite IH; [done|]. intros k Hk. apply Hf. right. done.
Qed.

Lemma length_filter_unique (P : nat -> bool) (l : list nat) (m : nat) :
  List.NoDup l -> In m l -> P m = true -> (forall k, P k = true -> k = m) ->
  length (List.filter P l) = 1%nat.
Proof.
  induction l as [|a l IH]; intros Hn Hm HP Hu; [done|].
  apply NoDup_cons_iff in Hn as [Ha Hn]. rewrite length_filter_cons.
  destruct Hm as [<- | Hm].
  - rewrite HP, length_filter_none; [done|].
    intros k Hk. destruct (P k) eqn:E; [|done]. apply Hu in E. subst. done.
  - destruct (P a) eqn:E.
    + apply Hu in E. subst. done.
    + rewrite IH; done.
Qed.

Section Build.
Variable items : list MenuItem.
Let D := map id items.
Let R := map id (List.filter (is_root_of D) items).

Lemma buildMenuTree_roots : map id (buildMenuTree items) = R.
Proof.
  unfold buildMenuTree. pose proof (build_heap_spec items) as [Hr Hh].
  destruct (second_pass items (first_pass items)) as [h roots]. simpl in Hr, Hh.
  rewrite map_map, Hr. fold D. fold R.
  rewrite (map_ext_in _ (fun x => x)); [apply map_id|].
  intros x Hx. assert (HxD : In x D).
  { unfold R in Hx. apply in_map_iff in Hx as (it & <- & Hit).
    apply filter_In in Hit as [Hit _]. apply in_map. done. }
  destruct (proj1 (Hh x) HxD) as (n & En & Hi & _).
  destruct (length items); simpl; rewrite En; done.
Qed.

Hypothesis Hnd : List.NoDup (map id items).

Lemma flatten_build_count (y : Z) :
  count_occ Z.eq_dec (flatten (buildMenuTree items)) y =
  length (List.filter (fun k => match anc items k y with Some c => mem c R | None => false end)
            (seq 0 (S (length items)))).
Proof.
  assert (Hm : buildMenuTree items =
               map (materialize (length items) (fst (second_pass items (first_pass items)))) R).
  { unfold buildMenuTree. pose proof (proj1 (build_heap_spec items)) as Hr.
    destruct (second_pass items (first_pass items)) as [h roots]. simpl in Hr |- *.
    rewrite Hr. done. }
  rewrite Hm. unfold flatten.
  rewrite flat_map_concat_map, map_map, <- flat_map_concat_map, count_occ_flat_map.
  rewrite (map_ext_in _ (fun c => length (List.filter
             (fun k => bool_decide (anc items k y = Some c)) (seq 0 (S (length items)))))).
  2:{ intros c Hc. apply materialize_count; [done|]. apply in_roots in Hc as [Hc _]; done. }
  apply sum_count_swap. apply nodup_map_filter. done.
Qed.

Lemma root_index (y : Z) (k : nat) :
  In y D ->
  (match anc items k y with Some c => mem c R | None => false end) = true <-> chain_end items y k.
Proof.
  intros Hy. unfold chain_end. simpl. destruct (anc items k y) as [c|] eqn:E.
  - rewrite mem_spec. unfold R, D. rewrite in_roots by done.
    pose proof (anc_in items y c k Hy E). split; [intros [_ ?]; split; [eexists|]; done|].
    intros [_ ?]. done.
  - split; [done|]. intros [[? ?] _]. done.
Qed.

Lemma count_in (y : Z) :
  In y D -> (exists K, anc items K y = None) ->
  count_occ Z.eq_dec (flatten (buildMenuTree items)) y = 1%nat.
Proof.
  intros Hy [K HK]. destruct (chain_end_exists items y K HK) as (m & _ & Hm).
  rewrite flatten_build_count. apply (length_filter_unique _ _ m).
  - apply seq_NoDup.
  - apply in_seq. pose proof (chain_end_bound items y m Hy Hm). lia.
  - apply root_index; done.
  - intros k Hk. apply root_index in Hk; [|done]. apply (chain_end_unique items y k m); done.
Qed.

Lemma count_out (y : Z) :
  ~ In y D -> count_occ Z.eq_dec (flatten (buildMenuTree items)) y = 0%nat.
Proof.
  intros Hy. rewrite flatten_build_count. apply length_filter_none. intros k _.
  destruct k as [|k]; simpl.
  - destruct (mem y R) eqn:E; [|done]. exfalso. apply mem_spec in E.
    apply in_roots in E as [E _]; done.
  - pose proof (anc_none_persist items y 1 k) as E. simpl in E.
    rewrite link_not_in in E by done. rewrite E by done. done.
Qed.
End Build.

Lemma filterVisibleMenus_sorted (l : list MenuItem) :
  forest_sorted (filterVisibleMenus l) = true.
Proof.
  apply filter_level_sorted, List.Forall_forall. intros x _.
  apply visible_children_sorted.
Qed.


(* ================================================================== *)
Lemma hydrate_step_failure srv addRoute a :
  hydration_step_fails srv addRoute -> hydration_fails srv addRoute a.
Proof.
  unfold hydration_fails, hydrate, fetchMenus, on_user, fetchUserInfo,
    bind, await, modify, get, ret.
  intros [[e He]|[[e He]|[[e He]|[Hadd [d [Hd Hne]]]]]].
  - rewrite He. eauto.
  - destruct (srv_person srv); [rewrite He|]; eauto.
  - destruct (srv_person srv); [destruct (srv_perms srv)|]; [rewrite He| |]; eauto.
  - destruct (srv_person srv); [destruct (srv_perms srv)|]; [rewrite Hd| |]; eauto.
    cbn [app_menus set_app_menus set_app_user].
    destruct (generateRoutes (buildMenuTree (default [] d))) as [|r rs]; [done|].
    simpl. rewrite Hadd. eauto.
Qed.

(** *** Route registration *)

Lemma includes_In l x : includes l x = true <-> In x l.
Proof.
  unfold includes. rewrite existsb_exists. split.
  - intros [y [Hy Heq]]. apply String.eqb_eq in Heq. subst. done.
  - intros H. exists x. split; [done | apply String.eqb_refl].
Qed.

Lemma filter_filter_and {A} (f g : A -> bool) l :
  List.filter f (List.filter g l) = List.filter (fun x => g x && f x) l.
Proof.
  induction l as [|x l IH]; [done|]. simpl.
  destruct (g x); simpl; [destruct (f x); simpl; rewrite IH|]; done.
Qed.

Lemma filter_all {A} (f : A -> bool) l :
  (forall x, In x l -> f x = true) -> List.filter f l = l.
Proof.
  induction l as [|x l IH]; intros H; [done|]. simpl.
  rewrite (H x (or_introl eq_refl)), IH; [done|]. intros y Hy. apply H. right. done.
Qed.

Lemma filter_none {A} (f : A -> bool) l :
  (forall x, In x l -> f x = false) -> List.filter f l = [].
Proof.
  induction l as [|x l IH]; intros H; [done|]. simpl.
  rewrite (H x (or_introl eq_refl)). apply IH. intros y Hy. apply H. right. done.
Qed.

(** Registering routes with distinct, non-empty names drops the earlier
    routes of those names and appends the new ones in order. *)
Lemma register_routes_spec nav tbl0 :
  List.NoDup (map r_name nav) -> List.Forall (fun r => r_name r <> "") nav ->
  register_routes nav tbl0 =
  List.filter (fun e => negb (includes (map r_name nav) (r_name e))) tbl0 ++ nav.
Proof.
  revert tbl0. induction nav as [|r rs IH]; intros t Hnd Hne.
  - simpl. rewrite app_nil_r. symmetry. apply filter_all. done.
  - apply NoDup_cons_iff in Hnd as [Hr Hnd].
    apply List.Forall_cons_iff in Hne as [Hr0 Hne].
    unfold register_routes. simpl. fold (register_routes rs).
    rewrite IH by done. unfold vue_addRoute.
    rewrite (proj2 (String.eqb_neq _ _) Hr0).
    rewrite List.filter_app, filter_filter_and. simpl.
    assert (Hn : includes (map r_name rs) (r_name r) = false).
    { destruct (includes _ _) eqn:E; [|done]. apply includes_In in E. done. }
    rewrite Hn. simpl. rewrite <- app_assoc. simpl. f_equal.
    apply List.filter_ext. intros e. unfold includes. simpl.
    rewrite (String.eqb_sym (r_name e) (r_name r)). symmetry. apply negb_orb.
Qed.

Lemma register_routes_twice nav tbl0 :
  List.NoDup (map r_name nav) -> List.Forall (fun r => r_name r <> "") nav ->
  register_routes nav (register_routes nav tbl0) = register_routes nav tbl0.
Proof.
  intros Hnd Hne. rewrite !(register_routes_spec nav) by done.
  rewrite List.filter_app, filter_filter_and.
  rewrite (filter_none _ nav), app_nil_r.
  - f_equal. apply List.filter_ext. intros e. apply andb_diag.
  - intros x Hx. apply negb_false_iff, includes_In, in_map. done.
Qed.

(** *** View resolution *)

Lemma substring_whole p : substring 0 (String.length p) p = p.
Proof. induction p as [|c p IH]; simpl; [done | rewrite IH; done]. Qed.

(** *** Trees, routes and visibility *)

Lemma subtree_eq (t : MenuItem) : subtree t = t :: flat_map subtree (children t).
Proof.
  destruct t as [? ? ? ? ? ? ? ? ? ? cs]. simpl. f_equal.
Qed.

Lemma routes_of_eq (t : MenuItem) :
  routes_of t = (if navigable t then [route_of t] else []) ++ flat_map routes_of (children t).
Proof.
  destruct t as [? ? ? ? ? ? ? ? ? ? cs]. simpl. f_equal.
Qed.

Lemma routes_of_subtree (t : MenuItem) :
  routes_of t = map route_of (List.filter navigable (subtree t)).
Proof.
  induction t as [t Hf] using MenuItem_ind'.
  rewrite routes_of_eq, subtree_eq. simpl.
  assert (Hc : flat_map routes_of (children t) =
               map route_of (List.filter navigable (flat_map subtree (children t)))).
  { induction Hf as [|x r Hx _ IH]; [done|].
    simpl. rewrite Hx, IH, List.filter_app, map_app. done. }
  rewrite Hc. destruct (navigable t); done.
Qed.

Lemma with_children_visible (it : MenuItem) (cs : list MenuItem) :
  visible (with_children it cs) = visible it.
Proof. done. Qed.

Lemma filter_level_visible (f : MenuItem -> list MenuItem) (items : list MenuItem) :
  (forall c, In c items -> visible c = true ->
     forall x, In x (flat_map subtree (f c)) -> visible x = true) ->
  forall x, In x (flat_map subtree (filter_level f items)) -> visible x = true.
Proof.
  intros Hc x Hx. unfold filter_level in Hx.
  apply in_flat_map in Hx as (y & Hy & Hxy).
  apply (Permutation_in _ (proj2 (sort_by_order_spec _))) in Hy.
  apply in_map_iff in Hy as (c & <- & Hc').
  apply filter_In in Hc' as [Hin Hv].
  rewrite subtree_eq in Hxy. destruct Hxy as [<- | Hxy].
  - rewrite with_children_visible. done.
  - exact (Hc c Hin Hv x Hxy).
Qed.

Lemma visible_children_visible (t : MenuItem) :
  forall x, In x (flat_map subtree (visible_children t)) -> visible x = true.
Proof.
  induction t as [t Hf] using MenuItem_ind'.
  rewrite visible_children_eq. apply filter_level_visible.
  intros c Hc _. apply (proj1 (List.Forall_forall _ _) Hf c Hc).
Qed.

(** *** Store actions *)

Lemma js_or_empty (o : option string) : js_or o "" = default "" o.
Proof.
  destruct o as [x|]; simpl; [|done].
  destruct (String.eqb x "") eqn:E; [apply String.eqb_eq in E; subst|]; done.
Qed.

Lemma login_ok_state srv user password s d s' :
  login srv user password s = (Ok d, s') ->
  token s' = data_token d /\ ls_token (storage s') = Some (data_token d) /\
  (exists u, userInfo s' = Some u /\ ls_user_info (storage s') = Some u) /\
  refreshToken s' = js_or (data_refreshToken d) "" /\
  (js_or (data_refreshToken d) "" <> "" -> ls_refresh_token (storage s') = data_refreshToken d).
Proof.
  unfold login, fetchUserInfo, save_refresh_token, bind, await, modify, ret.
  destruct (srv_login srv) as [dl|]; [|intros [=]].
  destruct (srv_person srv) as [dp|];
    [|destruct (String.eqb _ _); intros [=]].
  destruct (srv_perms srv) as [dq|];
    [|destruct (String.eqb _ _); intros [=]].
  destruct (String.eqb (js_or (data_refreshToken dl) "") "") eqn:E; intros [= <- <-];
    simpl; (split; [done|]); (split; [done|]); (split; [eexists; done|]); (split; [done|]).
  - intros H. apply String.eqb_eq in E. done.
  - done.
Qed.

Lemma fetchUserInfo_ok srv s u s' :
  fetchUserInfo srv s = (Ok u, s') ->
  userInfo s' = Some u /\ token s' = token s /\ refreshToken s' = refreshToken s.
Proof.
  unfold fetchUserInfo, bind, await, modify, ret.
  destruct (srv_person srv) as [dp|]; [|intros [=]].
  destruct (srv_perms srv) as [dq|]; [|intros [=]].
  intros [= <- <-]. done.
Qed.

Lemma add_all_keeps srv_add rs a o a' :
  add_all srv_add rs a = (o, a') -> app_user a' = app_user a /\ app_menus a' = app_menus a.
Proof.
  revert a. induction rs as [|r rs IH]; intros a; simpl.
  - intros [= _ <-]. done.
  - destruct (srv_add "Layout" r (app_routes a)) as [t|]; [|intros [= _ <-]; done].
    intros H. apply IH in H. destruct a. done.
Qed.

Lemma add_all_vue rs a :
  add_all vue_router rs a = (Ok tt, set_app_routes (register_routes rs (app_routes a)) a).
Proof.
  revert a. induction rs as [|r rs IH]; intros a; simpl.
  - destruct a. done.
  - rewrite IH. destruct a. done.
Qed.

Lemma hydrate_ok_parts srv addRoute a v a' :
  hydrate srv addRoute a = (Ok v, a') ->
  exists d us ui,
    fetchUserInfo srv (app_user a) = (Ok ui, us) /\ srv_menu srv = Resolved d /\
    add_all addRoute (generateRoutes (buildMenuTree (default [] d)))
      (mkApp us (buildMenuTree (default [] d)) (app_routes a)) = (Ok v, a').
Proof.
  unfold hydrate, bind, on_user.
  destruct (fetchUserInfo srv (app_user a)) as [[ui|e] us] eqn:Ef; [|intros [=]].
  unfold fetchMenus, bind, await, modify, get, ret.
  destruct (srv_menu srv) as [d|e]; [|intros [=]].
  simpl. intros H. exists d, us, ui. done.
Qed.

Lemma beforeEach_replace srv addRoute to a a' :
  beforeEach srv addRoute to a = (NextReplace to, a') ->
  isLoggedIn (app_user a) = true /\ userInfo (app_user a) = None /\
  exists v, hydrate srv addRoute a = (Ok v, a').
Proof.
  unfold beforeEach.
  destruct (to_public to); [destruct (_ && _); intros [=]|].
  destruct (isLoggedIn (app_user a)); [|intros [=]].
  destruct (userInfo (app_user a)) as [u|];
    [destruct (_ && _); intros [=]|].
  destruct (hydrate srv addRoute a) as [[v|e] a''] eqn:Eh; intros [= <-]. eauto.
Qed.

Lemma hasPermission_no_perms (st : Storage) (p : string) :
  hasPermission (init_user st) p = isAdmin (init_user st).
Proof. unfold hasPermission. destruct (isAdmin _); done. Qed.

Lemma js_or_falsy (o : option string) (dflt : string) : js_or o "" = "" -> js_or o dflt = dflt.
Proof.
  destruct o as [x|]; simpl; [|done].
  destruct (String.eqb x "") eqn:E; [done|]. intros ->. done.
Qed.

Lemma js_or_truthy (o : option string) (dflt : string) : js_or o "" <> "" -> js_or o dflt = js_or o "".
Proof.
  destruct o as [x|]; simpl; [|done].
  destruct (String.eqb x "") eqn:E; done.
Qed.

Lemma getHttpErrorMessage_nonempty (status : Z) : getHttpErrorMessage status <> "".
Proof.
  unfold getHttpErrorMessage.
  repeat match goal with |- context [if ?b then _ else _] => destruct b end;
    try discriminate.
Qed.

Lemma visible_ids_eq (t : MenuItem) :
  visible_ids t = if visible t then id t :: flat_map visible_ids (children t) else [].
Proof.
  destruct t as [? ? ? ? ? ? ? ? ? ? cs]. simpl.
  destruct (visible _); [f_equal|done].
Qed.

Lemma filter_level_shown (f : MenuItem -> list MenuItem) (items : list MenuItem) :
  (forall c, In c items -> visible c = true ->
     Permutation (flatten (f c)) (flat_map visible_ids (children c))) ->
  Permutation (flatten (filter_level f items)) (flat_map visible_ids items).
Proof.
  intros Hc. unfold filter_level, flatten.
  rewrite (Permutation_flat_map preorder (proj2 (sort_by_order_spec _))).
  induction items as [|c r IH]; [done|]. simpl.
  rewrite visible_ids_eq.
  destruct (visible c) eqn:Hv; cbn [List.filter map flat_map].
  - rewrite preorder_eq.
    change (id (with_children c (f c))) with (id c).
    change (children (with_children c (f c))) with (f c).
    cbn [app]. apply perm_skip, Permutation_app.
    + apply Hc; [left|]; done.
    + apply IH. intros c' Hc'. apply Hc. right. done.
  - apply IH. intros c' Hc'. apply Hc. right. done.
Qed.

Lemma visible_children_shown (t : MenuItem) :
  Permutation (flatten (visible_children t)) (flat_map visible_ids (children t)).
Proof.
  induction t as [t Hf] using MenuItem_ind'.
  rewrite visible_children_eq. apply filter_level_shown.
  intros c Hc _. apply (proj1 (List.Forall_forall _ _) Hf c Hc).
Qed.

Lemma filter_cons_eq {A} (f : A -> bool) (a : A) (l : list A) :
  List.filter f (a :: l) = if f a then a :: List.filter f l else List.filter f l.
Proof. done. Qed.

Lemma sorted_orders_ge (y : MenuItem) (r : list MenuItem) :
  sorted_orders (y :: r) = true -> forall z, In z r -> orderNum y <= orderNum z.
Proof.
  revert y. induction r as [|x r IH]; intros y Hs z Hz; [done|].
  apply sorted_orders_cons in Hs as [Hyx Hs].
  destruct Hz as [<-|Hz]; [done|]. specialize (IH x Hs z Hz). lia.
Qed.

Lemma insert_by_order_filter (x : MenuItem) (acc : list MenuItem) (k : Z) :
  sorted_orders acc = true ->
  List.filter (fun it => orderNum it =? k) (insert_by_order x acc) =
  List.filter (fun it => orderNum it =? k) acc ++ List.filter (fun it => orderNum it =? k) [x].
Proof.
  induction acc as [|y r IH]; intros Hs; [done|]. cbn [insert_by_order].
  destruct (orderNum x <? orderNum y) eqn:Hxy.
  - apply Z.ltb_lt in Hxy. rewrite (filter_cons_eq _ x (y :: r)), (filter_cons_eq _ x []).
    destruct (orderNum x =? k) eqn:Hk.
    + apply Z.eqb_eq in Hk. subst k.
      rewrite (filter_none _ (y :: r)); [done|].
      intros z [<-|Hz]; apply Z.eqb_neq; [lia|].
      pose proof (sorted_orders_ge y r Hs z Hz). lia.
    + rewrite app_nil_r. done.
  - apply sorted_orders_cons in Hs as [_ Hs].
    rewrite !(filter_cons_eq _ y), (IH Hs). destruct (orderNum y =? k); done.
Qed.

Lemma sort_by_order_filter (l : list MenuItem) (k : Z) :
  List.filter (fun it => orderNum it =? k) (sort_by_order l) =
  List.filter (fun it => orderNum it =? k) l.
Proof.
  unfold sort_by_order.
  assert (Hg : forall acc, sorted_orders acc = true ->
    List.filter (fun it => orderNum it =? k) (fold_left (fun acc x => insert_by_order x acc) l acc) =
    List.filter (fun it => orderNum it =? k) acc ++ List.filter (fun it => orderNum it =? k) l).
  { induction l as [|x r IH]; intros acc Hs; simpl; [rewrite app_nil_r; done|].
    rewrite IH by (apply insert_by_order_sorted; done).
    rewrite insert_by_order_filter by done. rewrite <- app_assoc. simpl.
    destruct (orderNum x =? k); done. }
  rewrite Hg; done.
Qed.

(** *** Children of the unfiltered tree *)

Lemma anc_first (items : list MenuItem) (k : nat) (y : Z) :
  anc items (S k) y = match link items y with Some z => anc items k z | None => None end.
Proof.
  induction k as [|k IH]; simpl.
  - destruct (link items y); done.
  - simpl in IH. rewrite IH. destruct (link items y); done.
Qed.

Lemma chain_end_child (items : list MenuItem) (c x : Z) (m : nat) :
  link items c = Some x -> chain_end items x m -> chain_end items c (S m).
Proof.
  intros Hl [Hm Hm']. split; rewrite anc_first, Hl; done.
Qed.

Section Children.
Variable items : list MenuItem.
Hypothesis Hnd : List.NoDup (map id items).
Let D := map id items.
Let H := fst (second_pass items (first_pass items)).

Lemma materialize_id (f : nat) (x : Z) : In x D -> id (materialize f H x) = x.
Proof.
  intros Hx. destruct (proj1 (proj2 (build_heap_spec items) x) Hx) as (n & En & Hi & _).
  destruct f; cbn [materialize]; fold H in En; rewrite En; done.
Qed.

(** A node at depth [m] is read back with [length items - m] levels of fuel
    left, and its children are the records attached to it, in input order. *)
Lemma materialize_children (f : nat) (x : Z) (m : nat) :
  In x D -> chain_end items x m -> (f + m)%nat = length items ->
  forall t, In t (subtree (materialize f H x)) ->
    map id (children t) = map id (List.filter (child_of D (id t)) items).
Proof.
  revert x m. induction f as [|f IH]; intros x m Hx Hm Hf t Ht.
  - exfalso. pose proof (chain_end_bound items x m Hx Hm). lia.
  - destruct (proj1 (proj2 (build_heap_spec items) x) Hx) as (n & En & Hi & Hc).
    cbn [materialize] in Ht. fold H in En. rewrite En in Ht. fold D in Hc.
    rewrite subtree_eq in Ht. destruct Ht as [<- | Ht].
    + cbn [with_children children id]. rewrite Hi, <- Hc, map_map.
      rewrite (map_ext_in _ (fun c => c)); [apply map_id|].
      intros c Hcin. apply materialize_id. rewrite Hc in Hcin.
      apply in_children in Hcin; [|done]. apply (link_some items c x Hcin).
    + cbn [with_children children] in Ht. apply in_flat_map in Ht as (y & Hy & Ht).
      apply in_map_iff in Hy as (c & <- & Hcin). rewrite Hc in Hcin.
      apply in_children in Hcin; [|done].
      apply (IH c (S m)); [apply (link_some items c x Hcin) | | lia | done].
      apply (chain_end_child items c x m Hcin Hm).
Qed.
End Children.

Lemma buildMenuTree_children (items : list MenuItem) :
  List.NoDup (map id items) ->
  forall t, In t (flat_map subtree (buildMenuTree items)) ->
    map id (children t) = map id (List.filter (child_of (map id items) (id t)) items).
Proof.
  intros Hnd t Ht.
  assert (Hm : buildMenuTree items =
               map (materialize (length items) (fst (second_pass items (first_pass items))))
                 (map id (List.filter (is_root_of (map id items)) items))).
  { unfold buildMenuTree. pose proof (proj1 (build_heap_spec items)) as Hr.
    destruct (second_pass items (first_pass items)) as [h roots]. simpl in Hr |- *.
    rewrite Hr. done. }
  rewrite Hm in Ht. apply in_flat_map in Ht as (y & Hy & Ht).
  apply in_map_iff in Hy as (r & <- & Hr). apply (in_roots items Hnd) in Hr as [HrD Hrl].
  apply (materialize_children items Hnd (length items) r 0); [done | | lia | done].
  split; [eexists; done | simpl; done].
Qed.

(** One level of [filterVisibleMenus], restricted to one [orderNum]. *)
Lemma filterVisibleMenus_order_filter (l : list MenuItem) (k : Z) :
  List.filter (fun it => orderNum it =? k) (filterVisibleMenus l) =
    map (fun it => with_children it (visible_children it))
      (List.filter (fun it => orderNum it =? k) (List.filter visible l)).
Proof.
  unfold filterVisibleMenus, filter_level. rewrite sort_by_order_filter.
  induction (List.filter visible l) as [|x r IH]; [done|]. simpl.
  destruct (orderNum x =? k); simpl; rewrite IH; done.
Qed.

(** *** Occurrences of records whose parent chain does not end *)

Lemma length_filter_le1 (P : nat -> bool) (l : list nat) :
  List.NoDup l -> (forall a b, P a = true -> P b = true -> a = b) ->
  (length (List.filter P l) <= 1)%nat.
Proof.
  induction l as [|a l IH]; intros Hn Hu; simpl; [lia|].
  apply NoDup_cons_iff in Hn as [Ha Hn]. destruct (P a) eqn:E.
  - simpl. rewrite length_filter_none; [lia|].
    intros k Hk. destruct (P k) eqn:Ek; [|done]. exfalso. apply Ha.
    rewrite (Hu a k E Ek). done.
  - apply IH; done.
Qed.

Lemma flatten_build_nodup (items : list MenuItem) :
  List.NoDup (map id items) -> List.NoDup (flatten (buildMenuTree items)).
Proof.
  intros Hnd. apply (NoDup_count_occ Z.eq_dec). intros y.
  destruct (in_dec Z.eq_dec y (map id items)) as [Hy | Hy].
  - rewrite flatten_build_count by done. apply length_filter_le1; [apply seq_NoDup|].
    intros a b Ha Hb. apply (root_index items Hnd y a Hy) in Ha.
    apply (root_index items Hnd y b Hy) in Hb. apply (chain_end_unique items y a b); done.
  - rewrite count_out by done. lia.
Qed.

Lemma flatten_build_endless (items : list MenuItem) (y : Z) :
  List.NoDup (map id items) -> In y (map id items) ->
  (forall k, is_Some (anc items k y)) ->
  count_occ Z.eq_dec (flatten (buildMenuTree items)) y = 0%nat.
Proof.
  intros Hnd Hy Hinf. rewrite flatten_build_count by done. apply length_filter_none.
  intros k _. destruct (match anc items k y with Some c => _ | None => false end) eqn:E; [|done].
  apply (root_index items Hnd y k Hy) in E as [_ E].
  destruct (Hinf (S k)) as [z Ez]. congruence.
Qed.

Lemma roots_in_flatten (l : list MenuItem) : incl (map id l) (flatten l).
Proof.
  intros x (t & <- & Ht)%in_map_iff. unfold flatten. apply in_flat_map.
  exists t. split; [done|]. rewrite preorder_eq. left. done.
Qed.

(** *** Registration by name *)

Lemma vue_addRoute_named (nm : string) (r : RouteRecord) (tbl : list RouteRecord) :
  nm <> "" ->
  List.filter (fun e => String.eqb (r_name e) nm) (vue_addRoute "Layout" r tbl) =
    if String.eqb (r_name r) nm then [r]
    else List.filter (fun e => String.eqb (r_name e) nm) tbl.
Proof.
  intros Hnm. unfold vue_addRoute. rewrite List.filter_app. simpl.
  destruct (String.eqb (r_name r) nm) eqn:E.
  - apply String.eqb_eq in E. rewrite E, (proj2 (String.eqb_neq nm "") Hnm).
    induction tbl as [|e tbl IH]; [done|]. simpl.
    destruct (String.eqb (r_name e) nm) eqn:Ee; simpl; rewrite ?Ee; done.
  - rewrite app_nil_r. destruct (String.eqb (r_name r) ""); [done|].
    induction tbl as [|e tbl IH]; [done|]. simpl.
    destruct (String.eqb (r_name e) nm) eqn:Ee; simpl.
    + assert (Hne : String.eqb (r_name e) (r_name r) = false)
        by (apply String.eqb_eq in Ee; rewrite Ee, String.eqb_sym; exact E).
      rewrite Hne. simpl. rewrite Ee, IH. done.
    + destruct (negb (String.eqb (r_name e) (r_name r))); simpl; rewrite ?Ee; done.
Qed.

Lemma register_routes_named (nm : string) (rs tbl : list RouteRecord) :
  nm <> "" ->
  List.filter (fun e => String.eqb (r_name e) nm) (register_routes rs tbl) =
    match last (List.filter (fun e => String.eqb (r_name e) nm) rs) with
    | Some r => [r]
    | None => List.filter (fun e => String.eqb (r_name e) nm) tbl
    end.
Proof.
  intros Hnm. revert tbl. induction rs as [|r rs IH]; intros tbl; [done|].
  unfold register_routes in *. simpl. rewrite IH, vue_addRoute_named by done.
  destruct (String.eqb (r_name r) nm); [rewrite last_cons|];
    destruct (last (List.filter _ rs)); done.
Qed.

Lemma register_routes_unnamed (rs tbl : list RouteRecord) :
  List.filter (fun e => String.eqb (r_name e) "") (register_routes rs tbl) =
    List.filter (fun e => String.eqb (r_name e) "") tbl ++
    List.filter (fun e => String.eqb (r_name e) "") rs.
Proof.
  revert tbl. induction rs as [|r rs IH]; intros tbl; [by rewrite app_nil_r|].
  unfold register_routes in *. simpl. rewrite IH. unfold vue_addRoute.
  destruct (String.eqb (r_name r) "") eqn:E.
  - rewrite List.filter_app. simpl. rewrite E, <- app_assoc. done.
  - rewrite List.filter_app. simpl. rewrite E, app_nil_r. f_equal.
    induction tbl as [|e tbl IHt]; [done|]. simpl.
    destruct (String.eqb (r_name e) "") eqn:Ee; simpl.
    + assert (Hne : String.eqb (r_name e) (r_name r) = false)
        by (apply String.eqb_eq in Ee; rewrite Ee, String.eqb_sym; exact E).
      rewrite Hne. simpl. rewrite Ee, IHt. done.
    + destruct (negb (String.eqb (r_name e) (r_name r))); simpl; rewrite ?Ee; done.
Qed.

(** The parent chain of record 1 of [cyclic_menu] never ends. *)
Lemma anc_cyclic_some (k : nat) : is_Some (anc cyclic_menu k 1).
Proof.
  assert (H : anc cyclic_menu k 1 = Some 1 \/ anc cyclic_menu k 1 = Some 2).
  { induction k as [|k [IH | IH]]; simpl; [left; done | |]; rewrite IH; vm_compute; auto. }
  destruct H as [H | H]; rewrite H; eexists; done.
Qed.

(** *** The guard on a session with a profile *)

Lemma beforeEach_hydrated (srv : Server) (addRoute : AddRoute) (to : Target) (u : UserState)
    (v : UserInfo) (menus : list MenuItem) (routes : list RouteRecord) :
  to_public to = false -> isLoggedIn u = true -> userInfo u = Some v ->
  beforeEach srv addRoute to (mkApp u menus routes) =
    ((if truthy_str (to_perms to) && negb (hasPermission u (default "" (to_perms to)))
      then NextPath "/403" else NextAllow), mkApp u menus routes).
Proof.
  intros Hpub Hli Hui. unfold beforeEach. rewrite Hpub. cbn [app_user]. rewrite Hli, Hui.
  cbn [negb]. destruct (_ && _); done.
Qed.

(** * Claims *)
(* ================================================================== *)

(** C1 (as stated, refuted): for every flat list of records with distinct
    identifiers, both the unfiltered tree of [buildMenuTree] and the
    filtered tree of [filterVisibleMenus] are sorted by [orderNum] at every
    level.  [buildMenuTree] keeps the input order; two roots given in
    descending display order stay that way. *)
Lemma C1_unfiltered_not_sorted :
  ~ (forall items : list MenuItem, NoDup (map id items) ->
       forest_sorted (buildMenuTree items) = true /\
       forest_sorted (filterVisibleMenus (buildMenuTree items)) = true).
Proof.
  intros H. destruct (H unordered_menu) as [H1 _].
  - vm_compute. repeat constructor; set_solver.
  - vm_compute in H1. discriminate H1.
Qed.

(** C1 (amended): the tree produced by the visibility pass
    [filterVisibleMenus] has, at every level, its children in ascending
    [orderNum], and the sort is stable: at every level the kept siblings
    with the same [orderNum] keep their input order.  The unfiltered tree of
    [buildMenuTree] is not sorted: its roots are the root records in input
    order, and, for distinct identifiers, the children of every node are the
    records attached to it, in input order. *)
Theorem C1_filtered_tree_sorted (items : list MenuItem) :
  forest_sorted (filterVisibleMenus (buildMenuTree items)) = true /\
  (forall (l : list MenuItem) (k : Z),
     List.filter (fun it => orderNum it =? k) (filterVisibleMenus l) =
       map (fun it => with_children it (visible_children it))
         (List.filter (fun it => orderNum it =? k) (List.filter visible l))) /\
  (forall (t : MenuItem) (k : Z),
     List.filter (fun it => orderNum it =? k) (visible_children t) =
       map (fun it => with_children it (visible_children it))
         (List.filter (fun it => orderNum it =? k) (List.filter visible (children t)))) /\
  map id (buildMenuTree items) = map id (List.filter (is_root_of (map id items)) items) /\
  (List.NoDup (map id items) ->
   forall t, In t (flat_map subtree (buildMenuTree items)) ->
     map id (children t) = map id (List.filter (child_of (map id items) (id t)) items)).
Proof.
  split; [apply filterVisibleMenus_sorted|].
  split; [apply filterVisibleMenus_order_filter|].
  split; [intros t k; rewrite visible_children_eq; apply filterVisibleMenus_order_filter|].
  split; [apply buildMenuTree_roots | apply buildMenuTree_children].
Qed.

Lemma C1_filtered_tree_sorted_witness :
  List.NoDup (map id scenario_menu) /\
  map id (children (nth 0 (buildMenuTree scenario_menu) (menu_rec 0 None "" None 0 0 false)))
    = [2].
Proof.
  assert (Hn : List.NoDup (map id scenario_menu)).
  { vm_compute. repeat constructor; simpl; intuition lia. }
  split; [exact Hn|].
  rewrite (proj2 (proj2 (proj2 (proj2 (C1_filtered_tree_sorted scenario_menu)))) Hn
             (nth 0 (buildMenuTree scenario_menu) (menu_rec 0 None "" None 0 0 false))
             ltac:(vm_compute; left; reflexivity)).
  vm_compute. reflexivity.
Defined.

(** C2 (as stated, refuted): for every flat list with distinct
    identifiers, the pre-order flattening of [buildMenuTree] is a
    permutation of the input identifiers, and records whose parent is null
    or absent are roots.  Two records whose parents point at each other are
    neither roots nor reachable from one: both are lost. *)
Lemma C2_parent_cycle_dropped :
  ~ (forall items : list MenuItem, List.NoDup (map id items) ->
       Permutation (flatten (buildMenuTree items)) (map id items) /\
       (forall it, In it items ->
          (parentId it = None \/ exists p, parentId it = Some p /\ ~ In p (map id items)) ->
          In (id it) (map id (buildMenuTree items)))).
Proof.
  intros H. destruct (H cyclic_menu) as [Hp _].
  - vm_compute. repeat constructor; simpl; intuition lia.
  - vm_compute in Hp. apply Permutation_nil in Hp. discriminate Hp.
Qed.

(** C2 (amended): for every flat list of records with distinct
    identifiers, the pre-order flattening of [buildMenuTree] has no
    duplicates; when the parent links contain no cycle (following the
    parent links from any record reaches a record that the builder makes a
    root) it is a permutation of the input identifiers.  Every record whose
    parent identifier is null or absent from the input is a root of the
    forest.  A record whose chain of parent links never ends (one on a
    parent cycle, or below one) is neither a root nor reachable from one. *)
Theorem C2_flatten_permutation (items : list MenuItem) :
  List.NoDup (map id items) ->
  ((forall it, In it items -> exists k, anc items k (id it) = None) ->
   Permutation (flatten (buildMenuTree items)) (map id items)) /\
  List.NoDup (flatten (buildMenuTree items)) /\
  (forall it, In it items ->
     (parentId it = None \/ exists p, parentId it = Some p /\ ~ In p (map id items)) ->
     In (id it) (map id (buildMenuTree items))) /\
  (forall it, In it items -> (forall k, is_Some (anc items k (id it))) ->
     ~ In (id it) (flatten (buildMenuTree items)) /\
     ~ In (id it) (map id (buildMenuTree items))).
Proof.
  intros Hnd. split; [|split; [|split]].
  - intros Hacyc. apply (Permutation_count_occ Z.eq_dec). intros y.
    destruct (in_dec Z.eq_dec y (map id items)) as [Hy | Hy].
    + rewrite count_in by (try done; apply in_map_iff in Hy as (it & <- & Hit); by apply Hacyc).
      symmetry. apply NoDup_count_occ'; done.
    + rewrite count_out by done. symmetry. apply count_occ_not_In. done.
  - apply flatten_build_nodup. done.
  - intros it Hit Hp. rewrite buildMenuTree_roots. apply in_roots; [done|].
    split; [apply in_map; done|]. rewrite link_item by done. unfold link_of.
    destruct Hp as [-> | (p & -> & Hp)]; [done|].
    destruct (mem p (map id items)) eqn:E; [apply mem_spec in E; done|].
    rewrite andb_false_r. done.
  - intros it Hit Hinf.
    assert (Hout : ~ In (id it) (flatten (buildMenuTree items))).
    { apply (count_occ_not_In Z.eq_dec). apply flatten_build_endless; [done | | done].
      apply in_map. done. }
    split; [done|]. intros Hr. apply Hout, roots_in_flatten. done.
Qed.

Lemma C2_flatten_permutation_witness :
  List.NoDup (map id scenario_menu) /\
  Permutation (flatten (buildMenuTree scenario_menu)) (map id scenario_menu) /\
  ~ In 1 (flatten (buildMenuTree cyclic_menu)).
Proof.
  assert (Hn : List.NoDup (map id scenario_menu)).
  { vm_compute. repeat constructor; simpl; intuition lia. }
  assert (Hc : List.NoDup (map id cyclic_menu)).
  { vm_compute. repeat constructor; simpl; intuition lia. }
  split; [exact Hn|]. split.
  - apply (proj1 (C2_flatten_permutation scenario_menu Hn)
      (fun it Hit => ltac:(destruct Hit as [<- | [<- | []]];
                           [exists 1%nat | exists 2%nat]; vm_compute; reflexivity))).
  - apply (proj1 (proj2 (proj2 (proj2 (C2_flatten_permutation cyclic_menu Hc)))
                   (menu_rec 1 (Some 2) "A" (Some "/a") 1 1 true) (or_introl eq_refl)
                   anc_cyclic_some)).
Defined.

(** C3 (as stated, refuted): after every session-store operation (login,
    profile fetch, token refresh, logout) token and profile are both present
    or both absent.  A login whose profile request fails stores the token
    and rejects with no profile. *)
Lemma C3_login_without_profile :
  ~ (forall (srv : Server) (user pw : string) (s : UserState),
       session_consistent s = true ->
       session_consistent (snd (login srv user pw s)) = true /\
       session_consistent (snd (fetchUserInfo srv s)) = true /\
       session_consistent (snd (refreshUserToken srv s)) = true /\
       session_consistent (logout s) = true).
Proof.
  intros H. destruct (H server_person_down "alice" "pw" empty_session eq_refl) as [H1 _].
  vm_compute in H1. discriminate H1.
Qed.

(** C3 (amended): logout leaves token and profile both absent; a login
    that resolves with a non-empty token leaves both present; a token
    refresh never changes the profile and a profile fetch, whether it
    succeeds or fails, never changes the token.  A login whose profile
    request fails rejects after storing the new token (in memory and in
    localStorage) and leaves the profile as it was, so a login from a
    logged-out session leaves a token without a profile.  A login whose
    permission request fails rejects after storing the new token and
    setting the new profile in memory, with the permissions and the stored
    profile left as they were. *)
Theorem C3_session_pairs (srv : Server) (user pw : string) (s : UserState) :
  (forall d s', login srv user pw s = (Ok d, s') -> data_token d <> "" ->
     isLoggedIn s' = true /\ is_Some (userInfo s')) /\
  (token (logout s) = "" /\ userInfo (logout s) = None) /\
  userInfo (snd (refreshUserToken srv s)) = userInfo s /\
  token (snd (fetchUserInfo srv s)) = token s /\
  (forall dl e, srv_login srv = Resolved dl -> srv_person srv = Rejected e ->
     fst (login srv user pw s) = Throw e /\
     token (snd (login srv user pw s)) = data_token dl /\
     ls_token (storage (snd (login srv user pw s))) = Some (data_token dl) /\
     userInfo (snd (login srv user pw s)) = userInfo s) /\
  (forall dl dp e, srv_login srv = Resolved dl -> srv_person srv = Resolved dp ->
     srv_perms srv = Rejected e ->
     fst (login srv user pw s) = Throw e /\
     token (snd (login srv user pw s)) = data_token dl /\
     ls_token (storage (snd (login srv user pw s))) = Some (data_token dl) /\
     userInfo (snd (login srv user pw s)) =
       Some (mkUserInfo (p_id dp) (p_username dp) (js_or (p_nickName dp) (p_username dp))
               (default [] (p_roleIds dp)) (default [] (p_roles dp))) /\
     permissions (snd (login srv user pw s)) = permissions s /\
     ls_user_info (storage (snd (login srv user pw s))) = ls_user_info (storage s)).
Proof.
  split; [|split; [done|split; [|split; [|split]]]].
  - intros d s' Hl Ht. revert Hl.
    unfold login, fetchUserInfo, save_refresh_token, bind, await, modify, ret.
    destruct (srv_login srv) as [dl|]; [|intros [=]].
    destruct (srv_person srv) as [dp|];
      [|destruct (String.eqb _ _); intros [=]].
    destruct (srv_perms srv) as [dq|];
      [|destruct (String.eqb _ _); intros [=]].
    destruct (String.eqb (js_or (data_refreshToken dl) "") ""); intros [= <- <-];
      (split; [unfold isLoggedIn; simpl; apply negb_true_iff, String.eqb_neq; done
              | eexists; done]).
  - unfold refreshUserToken, save_refresh_token, bind, get, throw, await, modify, ret.
    destruct (String.eqb (refreshToken s) ""); [done|].
    destruct (srv_refresh srv) as [dr|]; [|done].
    destruct (String.eqb (js_or (data_refreshToken dr) "") ""); done.
  - unfold fetchUserInfo, bind, await, modify, ret.
    destruct (srv_person srv); [|done]. destruct (srv_perms srv); done.
  - intros dl e Hl Hp.
    unfold login, fetchUserInfo, save_refresh_token, bind, await, modify, ret.
    rewrite Hl, Hp. destruct (String.eqb (js_or (data_refreshToken dl) "") ""); done.
  - intros dl dp e Hl Hp Hq.
    unfold login, fetchUserInfo, save_refresh_token, bind, await, modify, ret.
    rewrite Hl, Hp, Hq. destruct (String.eqb (js_or (data_refreshToken dl) "") ""); done.
Qed.

Lemma C3_session_pairs_witness :
  login server_ok "alice" "pw" empty_session = (Ok (mkTokenData "t1" (Some "r1")),
    snd (login server_ok "alice" "pw" empty_session)) /\
  isLoggedIn (snd (login server_ok "alice" "pw" empty_session)) = true /\
  token (snd (login server_person_down "alice" "pw" empty_session)) = "t1" /\
  userInfo (snd (login server_person_down "alice" "pw" empty_session)) = None /\
  userInfo (snd (login server_perms_down "alice" "pw" empty_session)) = Some plain_user.
Proof.
  split; [vm_compute; reflexivity|]. split.
  - apply (proj1 (proj1 (C3_session_pairs server_ok "alice" "pw" empty_session)
            (mkTokenData "t1" (Some "r1")) _ ltac:(vm_compute; reflexivity)
            ltac:(vm_compute; discriminate))).
  - destruct (proj1 (proj2 (proj2 (proj2 (proj2
               (C3_session_pairs server_person_down "alice" "pw" empty_session)))))
               (mkTokenData "t1" (Some "r1")) "Network Error" eq_refl eq_refl)
      as (_ & H1 & _ & H2).
    destruct (proj2 (proj2 (proj2 (proj2 (proj2
               (C3_session_pairs server_perms_down "alice" "pw" empty_session)))))
               (mkTokenData "t1" (Some "r1")) person_alice "Network Error" eq_refl eq_refl eq_refl)
      as (_ & _ & _ & H3 & _).
    split; [exact H1|]. split; [exact H2|]. rewrite H3. vm_compute. reflexivity.
Defined.

(** C4 (code bug): when the refresh fails, [refreshUserToken] rejects and
    leaves the session as it was: the stale access token stays, no logout
    happens and nothing is pushed to the login route; so too when the
    refresh token is missing. *)
Theorem C4_refresh_failure_keeps_session :
  refreshUserToken server_refresh_expired active_session =
    (Throw "refresh token expired", active_session) /\
  isLoggedIn active_session = true /\ userInfo active_session <> None /\
  refreshUserToken server_refresh_expired (set_refreshToken "" active_session) =
    (Throw "No refresh token", set_refreshToken "" active_session).
Proof. vm_compute. repeat split; congruence. Qed.

(** C5: an administrator session ([userInfo.username === 'admin']) answers
    [true] to the three permission queries for every input, whatever the
    stored permission list. *)
Theorem C5_admin_all_permissions (s : UserState) (u : UserInfo) :
  userInfo s = Some u -> username u = "admin" ->
  forall (code : string) (codes : list string),
    hasPermission s code = true /\ hasAnyPermission s codes = true /\
    hasAllPermissions s codes = true.
Proof.
  intros Hu Ha code codes.
  assert (Hadm : isAdmin s = true) by (unfold isAdmin; rewrite Hu, Ha; done).
  unfold hasPermission, hasAnyPermission, hasAllPermissions. rewrite Hadm. done.
Qed.

Lemma C5_admin_all_permissions_witness :
  hasPermission admin_session "" = true /\ hasAnyPermission admin_session [] = true /\
  hasAllPermissions admin_session ["unknown:code"] = true.
Proof.
  destruct (C5_admin_all_permissions admin_session admin_user eq_refl eq_refl "" []) as [H1 [H2 _]].
  destruct (C5_admin_all_permissions admin_session admin_user eq_refl eq_refl ""
              ["unknown:code"]) as [_ [_ H3]].
  split; [exact H1 | split; [exact H2 | exact H3]].
Defined.

(** C10: for a non-administrator session, [hasAllPermissions([])] is
    [true] and [hasAnyPermission([])] is [false], whatever the stored
    permission list. *)
Theorem C10_empty_list_queries (s : UserState) :
  isAdmin s = false ->
  hasAllPermissions s [] = true /\ hasAnyPermission s [] = false.
Proof.
  intros Hn. unfold hasAllPermissions, hasAnyPermission. rewrite Hn. done.
Qed.

Lemma C10_empty_list_queries_witness :
  hasAllPermissions active_session [] = true /\ hasAnyPermission active_session [] = false.
Proof. apply C10_empty_list_queries. vm_compute. reflexivity. Defined.

(** C6: on a protected target, for a logged-in session without a profile,
    a failing hydration step (profile, permission or menu request, or route
    registration) makes the guard log out and redirect to [/login] instead
    of admitting the target: token, refresh token, profile, permissions and
    stored credentials are all cleared. *)
Theorem C6_hydration_failure_logs_out (srv : Server) (addRoute : AddRoute) (to : Target) (a : App) :
  to_public to = false ->
  isLoggedIn (app_user a) = true ->
  userInfo (app_user a) = None ->
  hydration_step_fails srv addRoute \/ hydration_fails srv addRoute a ->
  exists a'', beforeEach srv addRoute to a = (NextPath "/login", a'') /\
    token (app_user a'') = "" /\ refreshToken (app_user a'') = "" /\
    userInfo (app_user a'') = None /\ permissions (app_user a'') = [] /\
    storage (app_user a'') = mkStorage None None None.
Proof.
  intros Hpub Hlog Hui Hf.
  assert (Hh : hydration_fails srv addRoute a)
    by (destruct Hf; [apply hydrate_step_failure|]; done).
  destruct Hh as [e [a' Ha]].
  unfold beforeEach. rewrite Hpub, Hlog, Hui. simpl. rewrite Ha.
  eexists. split; [reflexivity|]. simpl. done.
Qed.

Lemma C6_hydration_failure_logs_out_witness :
  exists a'', beforeEach server_person_down vue_router supply_target reloaded_app
              = (NextPath "/login", a'') /\
    token (app_user a'') = "" /\ refreshToken (app_user a'') = "" /\
    userInfo (app_user a'') = None /\ permissions (app_user a'') = [] /\
    storage (app_user a'') = mkStorage None None None.
Proof.
  apply (C6_hydration_failure_logs_out server_person_down vue_router supply_target reloaded_app);
    [reflexivity | reflexivity | reflexivity |].
  left. left. exists "Network Error". reflexivity.
Defined.

(** C8 (as stated, refuted): running the synthesis twice does not leave one
    route per navigable node for every menu tree: two pages with the same
    display name share a route name, and the router keeps only the later. *)
Lemma C8_same_name_collapses :
  ~ (forall menus : list MenuItem,
       Permutation (register_routes (generateRoutes menus) []) (generateRoutes menus) /\
       length (register_routes (generateRoutes menus)
                 (register_routes (generateRoutes menus) [])) =
       length (register_routes (generateRoutes menus) [])).
Proof.
  intros H. destruct (H same_name_menu) as [Hp _].
  apply Permutation_length in Hp. vm_compute in Hp. discriminate Hp.
Qed.

(** C8 (amended): route synthesis registers by name and relies on the
    router replacing a registered route of the same name.  When the
    navigable nodes carry distinct, non-empty names, a synthesis run
    replaces the registered routes of those names and appends one route per
    navigable node; a second run leaves the route table unchanged, so its
    size is unchanged too.  In general, for every non-empty name, the table
    holds after a run only the last generated route of that name (the
    registered routes of that name if none is generated); routes with an
    empty name are all kept, the registered ones followed by the generated
    ones, so every run adds them again. *)
Theorem C8_register_idempotent (menus : list MenuItem) (tbl0 : list RouteRecord) :
  (List.NoDup (map r_name (generateRoutes menus)) ->
   List.Forall (fun r => r_name r <> "") (generateRoutes menus) ->
   register_routes (generateRoutes menus) tbl0 =
     List.filter (fun e => negb (includes (map r_name (generateRoutes menus)) (r_name e))) tbl0
     ++ generateRoutes menus /\
   register_routes (generateRoutes menus) (register_routes (generateRoutes menus) tbl0) =
     register_routes (generateRoutes menus) tbl0) /\
  (forall nm, nm <> "" ->
     List.filter (fun e => String.eqb (r_name e) nm) (register_routes (generateRoutes menus) tbl0) =
       match last (List.filter (fun e => String.eqb (r_name e) nm) (generateRoutes menus)) with
       | Some r => [r]
       | None => List.filter (fun e => String.eqb (r_name e) nm) tbl0
       end) /\
  List.filter (fun e => String.eqb (r_name e) "") (register_routes (generateRoutes menus) tbl0) =
    List.filter (fun e => String.eqb (r_name e) "") tbl0 ++
    List.filter (fun e => String.eqb (r_name e) "") (generateRoutes menus).
Proof.
  split; [|split].
  - intros Hnd Hne. split; [apply register_routes_spec | apply register_routes_twice]; done.
  - intros nm Hnm. apply register_routes_named. done.
  - apply register_routes_unnamed.
Qed.

Lemma C8_register_idempotent_witness :
  List.NoDup (map r_name (generateRoutes scenario_menu)) /\
  List.Forall (fun r => r_name r <> "") (generateRoutes scenario_menu) /\
  register_routes (generateRoutes scenario_menu) (register_routes (generateRoutes scenario_menu) []) =
    register_routes (generateRoutes scenario_menu) [] /\
  map r_path (List.filter (fun e => String.eqb (r_name e) "Report")
                (register_routes (generateRoutes same_name_menu) [])) = ["/rk/b"].
Proof.
  assert (Hnd : List.NoDup (map r_name (generateRoutes scenario_menu)))
    by (vm_compute; constructor; [intros [] | constructor]).
  assert (Hne : List.Forall (fun r => r_name r <> "") (generateRoutes scenario_menu))
    by (vm_compute; constructor; [discriminate | constructor]).
  split; [exact Hnd|]. split; [exact Hne|].
  split; [exact (proj2 (proj1 (C8_register_idempotent scenario_menu []) Hnd Hne))|].
  rewrite (proj1 (proj2 (C8_register_idempotent same_name_menu [])) "Report" ltac:(discriminate)).
  vm_compute. reflexivity.
Defined.

(** C7 (as stated, refuted): a success envelope is not unwrapped by every
    client: the qwn_code client resolves with the whole body, and the
    claude_code client passes a body whose [code] is not a number through
    as it is, although that code is not 1000. *)
Lemma C7_envelope_not_unwrapped :
  ~ (forall e : Envelope,
       (env_code e = CNum 1000 ->
        qwn_response (BObj e) = ResolveField (env_result e) \/
        qwn_response (BObj e) = ResolveField (env_data e)) /\
       (env_code e <> CNum 1000 -> exists m, claude_response (BObj e) = Reject m)).
Proof.
  intros H. destruct (H ok_envelope) as [H1 _].
  destruct (H1 eq_refl) as [E|E]; vm_compute in E; discriminate E.
Qed.

(** C7 (amended): for an envelope with a numeric [code], code 1000 resolves
    with the [data] member (claude_code), the [result] member (part_021) or
    the whole envelope (qwn_code); any other code rejects with the server
    message, or with the client's default text when the message is absent
    or empty.  Other bodies: claude_code passes through unchanged an object
    whose [code] is not a number and any body that is neither an object nor
    [null]; part_021 passes through an object without a [code] member and
    any body that is not an object ([null] included), and rejects an object
    whose [code] is not a number; qwn_code rejects every body whose [code]
    is not 1000.  A [null] body makes claude_code and qwn_code throw a
    [TypeError]. *)
Theorem C7_numeric_code_settles :
  (forall (e : Envelope) (c : Z), env_code e = CNum c ->
     claude_response (BObj e) =
       (if c =? 1000 then ResolveField (env_data e)
        else Reject (js_or (env_message e) (if c =? 1001 then "操作失败" else "请求失败"))) /\
     part021_response (BObj e) =
       (if c =? 1000 then ResolveField (env_result e)
        else Reject (js_or (env_message e) "业务错误")) /\
     qwn_response (BObj e) =
       (if c =? 1000 then ResolveBody (BObj e)
        else Reject (js_or (env_message e) "请求失败"))) /\
  (forall e : Envelope, (forall c, env_code e <> CNum c) ->
     claude_response (BObj e) = ResolveBody (BObj e) /\
     qwn_response (BObj e) = Reject (js_or (env_message e) "请求失败") /\
     part021_response (BObj e) =
       match env_code e with
       | CAbsent => ResolveBody (BObj e)
       | _ => Reject (js_or (env_message e) "业务错误")
       end) /\
  (forall s : string,
     claude_response (BOther s) = ResolveBody (BOther s) /\
     part021_response (BOther s) = ResolveBody (BOther s) /\
     qwn_response (BOther s) = Reject "请求失败") /\
  claude_response BNull = ThrowTypeError /\ qwn_response BNull = ThrowTypeError /\
  part021_response BNull = ResolveBody BNull.
Proof.
  split; [|split; [|split; [intros s; done | done]]].
  - intros e c Hc. unfold claude_response, part021_response, qwn_response. rewrite Hc.
    split; [|split]; [destruct (c =? 1000); [|destruct (c =? 1001)] | |]; done.
  - intros e Hc. unfold claude_response, part021_response, qwn_response.
    destruct (env_code e) as [c| |]; [by destruct (Hc c) | done | done].
Qed.

Lemma C7_numeric_code_settles_witness :
  claude_response (BObj ok_envelope) = ResolveField (Some "payload") /\
  part021_response (BObj ok_envelope) = ResolveField (Some "payload") /\
  qwn_response (BObj ok_envelope) = ResolveBody (BObj ok_envelope) /\
  claude_response (BObj (mkEnvelope (COther "1000") None (Some "payload") None)) =
    ResolveBody (BObj (mkEnvelope (COther "1000") None (Some "payload") None)).
Proof.
  destruct (proj1 C7_numeric_code_settles ok_envelope 1000 eq_refl) as (H1 & H2 & H3).
  split; [exact H1|]. split; [exact H2|]. split; [exact H3|].
  apply (proj1 (proj1 (proj2 C7_numeric_code_settles)
                 (mkEnvelope (COther "1000") None (Some "payload") None)
                 (fun c => ltac:(discriminate)))).
Defined.

(** C9: view resolution strips one leading [/] and then looks up
    [/src/views/<path>.vue], then [/src/views/<path>/index.vue], falling back
    to the not-found view; a path without a leading [/] is used as it is, and
    a resolved module is always one that exists. *)
Theorem C9_resolve_convention (modules : list string) (p : string) :
  resolveComponent modules ("/" ++ p) = resolve_by_convention modules p /\
  (String.prefix "/" p = false -> resolveComponent modules p = resolve_by_convention modules p) /\
  (forall k, resolveComponent modules p = ViewModule k -> In k modules).
Proof.
  split; [|split].
  - unfold resolveComponent, resolve_by_convention.
    unfold String.append. simpl.
    rewrite Nat.sub_0_r, substring_whole.
    assert (Hpre : String.prefix "" p = true) by (destruct p; reflexivity).
    rewrite Hpre. done.
  - intros Hp. unfold resolveComponent. rewrite Hp. done.
  - intros k. unfold resolveComponent.
    destruct (if String.prefix "/" p then _ else _) as [|c q]; simpl;
      [destruct (includes modules (views_key "")) eqn:E1;
         [intros [= <-]; apply includes_In; done|];
       destruct (includes modules (index_key "")) eqn:E2;
         [intros [= <-]; apply includes_In; done | discriminate]|].
    destruct (includes modules (views_key (String c q))) eqn:E1;
      [intros [= <-]; apply includes_In; done|].
    destruct (includes modules (index_key (String c q))) eqn:E2;
      [intros [= <-]; apply includes_In; done | discriminate].
Qed.

Lemma C9_resolve_convention_witness :
  resolveComponent ["/src/views/rk/supply/index.vue"] ("/" ++ "rk/supply") =
    ViewModule "/src/views/rk/supply/index.vue" /\
  resolveComponent [] "rk/supply" = NotFoundView.
Proof.
  destruct (C9_resolve_convention ["/src/views/rk/supply/index.vue"] "rk/supply") as [H1 _].
  destruct (C9_resolve_convention [] "rk/supply") as [_ [H2 _]].
  split; [rewrite H1 | rewrite H2 by reflexivity]; vm_compute; reflexivity.
Defined.

(* ================================================================== *)
(** * Further properties of the code *)

(** [generateRoutes] lists one route per navigable node (type 1 with a
    non-empty [router]), in pre-order over the whole tree, whatever the
    node's [isShow]; every route path is non-empty. *)
Theorem generateRoutes_preorder (menus : list MenuItem) :
  generateRoutes menus = map route_of (List.filter navigable (flat_map subtree menus)) /\
  (forall r, In r (generateRoutes menus) -> r_path r <> "").
Proof.
  assert (Hg : generateRoutes menus =
               map route_of (List.filter navigable (flat_map subtree menus))).
  { unfold generateRoutes. induction menus as [|t r IH]; [done|].
    simpl. rewrite IH, routes_of_subtree, List.filter_app, map_app. done. }
  split; [done|]. rewrite Hg. intros r Hr.
  apply in_map_iff in Hr as (it & <- & Hit). apply filter_In in Hit as [_ Hn].
  unfold navigable in Hn. apply andb_true_iff in Hn as [_ Hn].
  unfold route_of, truthy_str in *. simpl.
  destruct (router it) as [s|]; [|discriminate]. simpl.
  intros ->. discriminate.
Qed.

(** Every node of the tree [filterVisibleMenus] returns, at any depth, has
    [isShow] set and a type other than 2 (permission). *)
Theorem filterVisibleMenus_all_visible (items : list MenuItem) :
  forall x, In x (flat_map subtree (filterVisibleMenus items)) ->
  isShow x = true /\ type x <> 2.
Proof.
  intros x Hx.
  assert (Hv : visible x = true).
  { revert x Hx. apply filter_level_visible.
    intros c _ _. apply visible_children_visible. }
  unfold visible in Hv. apply andb_true_iff in Hv as [Hs Ht].
  split; [done|]. apply negb_true_iff, Z.eqb_neq in Ht. done.
Qed.

Lemma filterVisibleMenus_all_visible_witness :
  isShow (nth 0 (flat_map subtree (filterVisibleMenus scenario_menu))
            (menu_rec 0 None "" None 0 0 false)) = true /\
  type (nth 0 (flat_map subtree (filterVisibleMenus scenario_menu))
          (menu_rec 0 None "" None 0 0 false)) <> 2.
Proof.
  apply (filterVisibleMenus_all_visible scenario_menu).
  vm_compute. left. reflexivity.
Defined.

(** [item.parentId && ...] treats a [parentId] of 0 as no parent: such a
    record becomes a root of [buildMenuTree], even when a record with
    identifier 0 exists. *)
Theorem buildMenuTree_parent_zero_root (items : list MenuItem) (it : MenuItem) :
  In it items -> parentId it = Some 0 -> In (id it) (map id (buildMenuTree items)).
Proof.
  intros Hin Hp. rewrite buildMenuTree_roots. apply in_map, filter_In. split; [done|].
  unfold is_root_of, link_of. rewrite Hp. done.
Qed.

Lemma buildMenuTree_parent_zero_root_witness :
  In (menu_rec 0 None "Home" (Some "/home") 1 1 true) zero_parent_menu /\
  In 5 (map id (buildMenuTree zero_parent_menu)).
Proof.
  split; [left; reflexivity|].
  exact (buildMenuTree_parent_zero_root zero_parent_menu
           (menu_rec 5 (Some 0) "Orders" (Some "/orders") 1 2 true)
           (or_intror (or_introl eq_refl)) eq_refl).
Defined.

(** [map.set] keeps one node object per identifier while [roots.push]
    pushes it once per record: two parentless records sharing an
    identifier give two roots, both carrying the later record's fields. *)
Theorem buildMenuTree_duplicate_id (a b : MenuItem) :
  id a = id b -> parentId a = None -> parentId b = None ->
  buildMenuTree [a; b] = [with_children b []; with_children b []].
Proof.
  intros Hab Ha Hb. unfold buildMenuTree, second_pass, first_pass.
  cbn [fold_left]. unfold second_step. rewrite Ha, Hb. simpl.
  rewrite Hab, lookup_insert_eq. done.
Qed.

Lemma buildMenuTree_duplicate_id_witness :
  buildMenuTree [menu_rec 3 None "Old" (Some "/old") 1 1 true;
                 menu_rec 3 None "New" (Some "/new") 1 2 true] =
  [with_children (menu_rec 3 None "New" (Some "/new") 1 2 true) [];
   with_children (menu_rec 3 None "New" (Some "/new") 1 2 true) []].
Proof.
  exact (buildMenuTree_duplicate_id (menu_rec 3 None "Old" (Some "/old") 1 1 true)
           (menu_rec 3 None "New" (Some "/new") 1 2 true) eq_refl eq_refl eq_refl).
Defined.

(** A successful login persists what a reload restores: the store built
    from localStorage has the login's token and profile and, when the login
    answered with a refresh token, its refresh token; the permission list is
    not persisted and comes back empty. *)
Theorem login_reload_restores (srv : Server) (user password : string) (s : UserState)
    (d : TokenData) (s' : UserState) :
  login srv user password s = (Ok d, s') ->
  token (init_user (storage s')) = token s' /\
  userInfo (init_user (storage s')) = userInfo s' /\
  permissions (init_user (storage s')) = [] /\
  (js_or (data_refreshToken d) "" <> "" ->
   refreshToken (init_user (storage s')) = refreshToken s').
Proof.
  intros Hl. destruct (login_ok_state _ _ _ _ _ _ Hl) as (Ht & Hst & (u & Hu & Hsu) & Hr & Hsr).
  unfold init_user. simpl. rewrite Hst, Hsu, Ht, Hu.
  split; [done|]. split; [done|]. split; [done|].
  intros Hne. rewrite (Hsr Hne), Hr, js_or_empty. done.
Qed.

Lemma login_reload_restores_witness :
  token (init_user (storage (snd (login server_ok "alice" "pw" empty_session)))) = "t1" /\
  permissions (init_user (storage (snd (login server_ok "alice" "pw" empty_session)))) = [].
Proof.
  destruct (login_reload_restores server_ok "alice" "pw" empty_session
              (mkTokenData "t1" (Some "r1")) (snd (login server_ok "alice" "pw" empty_session))
              eq_refl) as (H1 & _ & H3 & _).
  split; [rewrite H1; vm_compute; reflexivity | exact H3].
Defined.

(** Right after a reload of a logged-in session the stored profile is
    present, so the guard does not hydrate: on a protected target it
    changes no state, and, the permission list being empty until the
    profile fetch that [App.vue] starts on mount has resolved, it sends a
    non-admin user to [/403] for every target carrying a permission, even
    one the login had granted.  Once that fetch resolves, the permissions
    are the server's and the guard decides by them. *)
Theorem reload_skips_hydration (srv : Server) (user password : string) (s : UserState)
    (d : TokenData) (s' : UserState) (srv2 : Server) (addRoute : AddRoute) (to : Target)
    (menus : list MenuItem) (routes : list RouteRecord) :
  login srv user password s = (Ok d, s') ->
  data_token d <> "" ->
  to_public to = false ->
  beforeEach srv2 addRoute to (mkApp (init_user (storage s')) menus routes) =
    ((if truthy_str (to_perms to) && negb (isAdmin (init_user (storage s')))
      then NextPath "/403" else NextAllow),
     mkApp (init_user (storage s')) menus routes) /\
  (forall dp dq, srv_person srv2 = Resolved dp -> srv_perms srv2 = Resolved dq ->
     permissions (App_onMounted srv2 (init_user (storage s'))) = default [] (p_perms dq) /\
     beforeEach srv2 addRoute to
       (mkApp (App_onMounted srv2 (init_user (storage s'))) menus routes) =
     ((if truthy_str (to_perms to) &&
          negb (hasPermission (App_onMounted srv2 (init_user (storage s')))
                  (default "" (to_perms to)))
       then NextPath "/403" else NextAllow),
      mkApp (App_onMounted srv2 (init_user (storage s'))) menus routes)).
Proof.
  intros Hl Hd Hpub.
  destruct (login_ok_state _ _ _ _ _ _ Hl) as (_ & Hst & (u & _ & Hsu) & _ & _).
  assert (Hli : isLoggedIn (init_user (storage s')) = true).
  { unfold isLoggedIn, init_user. simpl. rewrite Hst. simpl.
    apply negb_true_iff, String.eqb_neq. done. }
  split.
  - rewrite (beforeEach_hydrated srv2 addRoute to _ u menus routes Hpub Hli)
      by (unfold init_user; simpl; done).
    rewrite hasPermission_no_perms. done.
  - intros dp dq Hp Hq.
    assert (Htok : String.eqb (token (init_user (storage s'))) "" = false)
      by (unfold isLoggedIn in Hli; apply negb_true_iff in Hli; exact Hli).
    unfold App_onMounted. rewrite Htok. unfold fetchUserInfo, bind, await, modify, ret.
    rewrite Hp, Hq. split; [done|].
    eapply beforeEach_hydrated; [exact Hpub | exact Hli | reflexivity].
Qed.

Lemma reload_skips_hydration_witness :
  In "sys:user:list" (permissions (snd (login server_ok "alice" "pw" empty_session))) /\
  beforeEach server_ok vue_router perms_target
    (mkApp (init_user (storage (snd (login server_ok "alice" "pw" empty_session)))) [] []) =
  (NextPath "/403",
   mkApp (init_user (storage (snd (login server_ok "alice" "pw" empty_session)))) [] []) /\
  fst (beforeEach server_ok vue_router perms_target
    (mkApp (App_onMounted server_ok
              (init_user (storage (snd (login server_ok "alice" "pw" empty_session))))) [] []))
  = NextAllow.
Proof.
  pose proof (reload_skips_hydration server_ok "alice" "pw" empty_session
             (mkTokenData "t1" (Some "r1")) (snd (login server_ok "alice" "pw" empty_session))
             server_ok vue_router perms_target [] [] eq_refl
             ltac:(discriminate) eq_refl) as [H1 H2].
  split; [vm_compute; left; reflexivity|]. split.
  - rewrite H1. vm_compute. reflexivity.
  - rewrite (proj2 (H2 person_alice (mkPermsData (Some ["sys:user:list"])) eq_refl eq_refl)).
    vm_compute. reflexivity.
Defined.

(** After [logout] the guard sends every protected target to [/login] with
    the target's full path as [redirect], shows public pages (the login page
    included) as they are, and changes no state on the way. *)
Theorem logout_then_guard (srv : Server) (addRoute : AddRoute) (to : Target) (a : App) :
  beforeEach srv addRoute to (set_app_user (logout (app_user a)) a) =
    ((if to_public to then NextAllow else NextLogin (to_fullPath to)),
     set_app_user (logout (app_user a)) a).
Proof.
  unfold beforeEach. destruct (to_public to); simpl; [|done].
  rewrite andb_false_r. done.
Qed.

(** After the guard has hydrated the session ([next({ ...to, replace: true })]),
    the re-entered navigation does not hydrate again: whatever the server
    and the router do, the state is left as it is and the target is shown
    or sent to [/403] by the permission check alone. *)
Theorem hydrated_guard_reentry (srv : Server) (addRoute : AddRoute) (to : Target) (a a' : App)
    (srv2 : Server) (addRoute2 : AddRoute) :
  beforeEach srv addRoute to a = (NextReplace to, a') ->
  isLoggedIn (app_user a') = true /\ is_Some (userInfo (app_user a')) /\
  beforeEach srv2 addRoute2 to a' =
    ((if truthy_str (to_perms to) &&
         negb (hasPermission (app_user a') (default "" (to_perms to)))
      then NextPath "/403" else NextAllow), a').
Proof.
  intros H. destruct (beforeEach_replace _ _ _ _ _ H) as (Hli & _ & v & Hh).
  assert (Hpub : to_public to = false).
  { revert H. unfold beforeEach. destruct (to_public to); [|done].
    destruct (_ && _); intros [=]. }
  destruct (hydrate_ok_parts _ _ _ _ _ Hh) as (d & us & ui & Hf & _ & Ha).
  apply add_all_keeps in Ha as [Hu _]. simpl in Hu.
  destruct (fetchUserInfo_ok _ _ _ _ Hf) as (Hui & Ht & _).
  assert (Hli' : isLoggedIn (app_user a') = true).
  { unfold isLoggedIn in *. rewrite Hu, Ht. done. }
  split; [done|]. split; [rewrite Hu, Hui; eexists; done|].
  unfold beforeEach. rewrite Hpub, Hli'. simpl. rewrite Hu, Hui. destruct (_ && _); done.
Qed.

Lemma hydrated_guard_reentry_witness :
  beforeEach server_ok vue_router perms_target reloaded_app =
    (NextReplace perms_target, snd (beforeEach server_ok vue_router perms_target reloaded_app)) /\
  beforeEach server_person_down vue_router perms_target
    (snd (beforeEach server_ok vue_router perms_target reloaded_app)) =
    (NextAllow, snd (beforeEach server_ok vue_router perms_target reloaded_app)).
Proof.
  assert (H : beforeEach server_ok vue_router perms_target reloaded_app =
    (NextReplace perms_target, snd (beforeEach server_ok vue_router perms_target reloaded_app)))
    by (vm_compute; reflexivity).
  split; [exact H|].
  destruct (hydrated_guard_reentry server_ok vue_router perms_target reloaded_app _
              server_person_down vue_router H) as (_ & _ & H3).
  rewrite H3. vm_compute. reflexivity.
Defined.

(** With vue-router's [addRoute], a hydration that lets the navigation
    through has stored the tree built from the menu response and has
    registered the routes generated from that tree on top of the previous
    route table. *)
Theorem hydration_registers_routes (srv : Server) (to : Target) (a a' : App) :
  beforeEach srv vue_router to a = (NextReplace to, a') ->
  exists d, srv_menu srv = Resolved d /\
    app_menus a' = buildMenuTree (default [] d) /\
    app_routes a' = register_routes (generateRoutes (app_menus a')) (app_routes a).
Proof.
  intros H. destruct (beforeEach_replace _ _ _ _ _ H) as (_ & _ & v & Hh).
  destruct (hydrate_ok_parts _ _ _ _ _ Hh) as (d & us & ui & _ & Hd & Ha).
  rewrite add_all_vue in Ha. injection Ha as _ <-.
  exists d. done.
Qed.

Lemma hydration_registers_routes_witness :
  beforeEach server_ok vue_router perms_target reloaded_app =
    (NextReplace perms_target, snd (beforeEach server_ok vue_router perms_target reloaded_app)) /\
  app_routes (snd (beforeEach server_ok vue_router perms_target reloaded_app)) =
    register_routes (generateRoutes (buildMenuTree scenario_menu)) [].
Proof.
  assert (H : beforeEach server_ok vue_router perms_target reloaded_app =
    (NextReplace perms_target, snd (beforeEach server_ok vue_router perms_target reloaded_app)))
    by (vm_compute; reflexivity).
  split; [exact H|].
  destruct (hydration_registers_routes server_ok perms_target reloaded_app _ H)
    as (d & Hd & Hm & Hr).
  rewrite Hr, Hm. injection Hd as <-. reflexivity.
Defined.

(** [hasAllPermissions] holds exactly when [hasPermission] holds for every
    code of the list, and [hasAnyPermission] exactly when the user is the
    admin or [hasPermission] holds for some code of the list. *)
Theorem permission_queries_compose (s : UserState) (ps : list string) :
  (hasAllPermissions s ps = true <-> forall p, In p ps -> hasPermission s p = true) /\
  (hasAnyPermission s ps = true <->
   isAdmin s = true \/ exists p, In p ps /\ hasPermission s p = true).
Proof.
  unfold hasAllPermissions, hasAnyPermission, hasPermission.
  destruct (isAdmin s).
  - split; [split; done|]. split; [by left | done].
  - rewrite forallb_forall, existsb_exists. split; [done|].
    split; [intros H; right; done | intros [H|H]; [discriminate | done]].
Qed.

(** After [logout] the store is logged out and no permission query
    succeeds ([hasAllPermissions] only on the empty list), requests carry no
    [Authorization] header, [/login] has been pushed, and a reload from the
    cleared localStorage stays logged out. *)
Theorem logout_revokes (s : UserState) :
  isLoggedIn (logout s) = false /\ isAdmin (logout s) = false /\
  (forall p, hasPermission (logout s) p = false) /\
  (forall ps, hasAnyPermission (logout s) ps = false) /\
  (forall ps, hasAllPermissions (logout s) ps = true <-> ps = []) /\
  auth_header (logout s) = None /\
  pushed (logout s) = pushed s ++ ["/login"] /\
  init_user (storage (logout s)) = mkUserState "" "" None [] (mkStorage None None None) [].
Proof.
  split; [done|]. split; [done|]. split; [done|].
  split; [intros ps; unfold hasAnyPermission; simpl; induction ps; done|].
  split; [|done].
  intros ps. unfold hasAllPermissions. simpl.
  destruct ps; simpl; [done|]. split; [intros [=] | intros [=]].
Qed.

(** The request interceptor sends the token of the last successful login
    or refresh: [Bearer <token>] when that token is non-empty, no header
    otherwise. *)
Theorem auth_header_after_login_refresh (srv : Server) (user password : string)
    (s s' : UserState) (d : TokenData) :
  (login srv user password s = (Ok d, s') \/ refreshUserToken srv s = (Ok d, s')) ->
  auth_header s' =
    (if String.eqb (data_token d) "" then None else Some ("Bearer " ++ data_token d)%string).
Proof.
  intros [Hl|Hr].
  - destruct (login_ok_state _ _ _ _ _ _ Hl) as (Ht & _).
    unfold auth_header. rewrite Ht. done.
  - revert Hr. unfold refreshUserToken, save_refresh_token, bind, get, await, modify, ret, throw.
    destruct (String.eqb (refreshToken s) ""); [intros [=]|].
    destruct (srv_refresh srv) as [dr|]; [|intros [=]].
    destruct (String.eqb (js_or (data_refreshToken dr) "") ""); intros [= <- <-]; done.
Qed.

Lemma auth_header_after_login_refresh_witness :
  auth_header (snd (login server_ok "alice" "pw" empty_session)) = Some "Bearer t1".
Proof.
  rewrite (auth_header_after_login_refresh server_ok "alice" "pw" empty_session
             (snd (login server_ok "alice" "pw" empty_session)) (mkTokenData "t1" (Some "r1"))
             (or_introl eq_refl)).
  reflexivity.
Defined.

(** A successful token refresh replaces the token in memory and in
    localStorage and leaves the profile and the permissions alone; when the
    response carries no (or an empty) refresh token, the old refresh token
    is kept in memory and in localStorage, otherwise both take the new one. *)
Theorem refresh_keeps_refresh_token (srv : Server) (s s' : UserState) (d : TokenData) :
  refreshUserToken srv s = (Ok d, s') ->
  token s' = data_token d /\ ls_token (storage s') = Some (data_token d) /\
  userInfo s' = userInfo s /\ permissions s' = permissions s /\
  (js_or (data_refreshToken d) "" = "" ->
   refreshToken s' = refreshToken s /\ ls_refresh_token (storage s') = ls_refresh_token (storage s)) /\
  (js_or (data_refreshToken d) "" <> "" ->
   refreshToken s' = js_or (data_refreshToken d) "" /\
   ls_refresh_token (storage s') = data_refreshToken d).
Proof.
  unfold refreshUserToken, save_refresh_token, bind, get, await, modify, ret, throw.
  destruct (String.eqb (refreshToken s) "") eqn:Er; [intros [=]|].
  destruct (srv_refresh srv) as [dr|]; [|intros [=]].
  destruct (String.eqb (js_or (data_refreshToken dr) "") "") eqn:E; intros [= <- <-]; simpl;
    (split; [done|]); (split; [done|]); (split; [done|]); (split; [done|]).
  - apply String.eqb_eq in E. split; [|intros []; done].
    intros _. split; [apply js_or_falsy|]; done.
  - apply String.eqb_neq in E. split; [intros H; done|].
    intros _. split; [apply js_or_truthy|]; done.
Qed.

Lemma refresh_keeps_refresh_token_witness :
  refreshToken (snd (refreshUserToken server_ok active_session)) = "r1" /\
  ls_refresh_token (storage (snd (refreshUserToken server_ok active_session))) = Some "r1".
Proof.
  destruct (refresh_keeps_refresh_token server_ok active_session
              (snd (refreshUserToken server_ok active_session)) (mkTokenData "t2" None) eq_refl)
    as (_ & _ & _ & _ & H & _).
  exact (H eq_refl).
Defined.

(** A login whose profile request succeeds and whose permission request
    fails rejects, but leaves the token and the new profile in memory
    (the profile is not written to localStorage and the permissions are
    those from before); the next protected navigation then skips hydration
    and is decided by those old permissions. *)
Theorem login_perms_failure_skips_hydration (srv : Server) (user password : string)
    (s : UserState) (dl : TokenData) (dp : PersonData) (e : string)
    (srv2 : Server) (addRoute : AddRoute) (to : Target)
    (menus : list MenuItem) (routes : list RouteRecord) :
  srv_login srv = Resolved dl -> data_token dl <> "" ->
  srv_person srv = Resolved dp -> srv_perms srv = Rejected e ->
  to_public to = false ->
  fst (login srv user password s) = Throw e /\
  isLoggedIn (snd (login srv user password s)) = true /\
  userInfo (snd (login srv user password s)) =
    Some (mkUserInfo (p_id dp) (p_username dp) (js_or (p_nickName dp) (p_username dp))
            (default [] (p_roleIds dp)) (default [] (p_roles dp))) /\
  permissions (snd (login srv user password s)) = permissions s /\
  ls_user_info (storage (snd (login srv user password s))) = ls_user_info (storage s) /\
  beforeEach srv2 addRoute to (mkApp (snd (login srv user password s)) menus routes) =
    ((if truthy_str (to_perms to) &&
         negb (hasPermission (snd (login srv user password s)) (default "" (to_perms to)))
      then NextPath "/403" else NextAllow),
     mkApp (snd (login srv user password s)) menus routes).
Proof.
  intros Hl Ht Hp Hq Hpub.
  unfold login, fetchUserInfo, save_refresh_token, bind, await, modify, ret.
  rewrite Hl, Hp, Hq.
  assert (Hli : forall s0, isLoggedIn (set_token (data_token dl) s0) = true).
  { intros s0. unfold isLoggedIn. simpl. apply negb_true_iff, String.eqb_neq. done. }
  destruct (String.eqb (js_or (data_refreshToken dl) "") ""); simpl;
    (split; [done|]);
    (split; [unfold isLoggedIn; simpl; apply negb_true_iff, String.eqb_neq; done|]);
    (split; [done|]); (split; [done|]); (split; [done|]);
    unfold beforeEach; rewrite Hpub; simpl; unfold isLoggedIn; simpl;
    rewrite (proj2 (String.eqb_neq _ _) Ht); simpl;
    destruct (_ && _); done.
Qed.

Lemma login_perms_failure_skips_hydration_witness :
  beforeEach server_ok vue_router perms_target
    (mkApp (snd (login server_perms_down "alice" "pw" empty_session)) [] []) =
  (NextPath "/403", mkApp (snd (login server_perms_down "alice" "pw" empty_session)) [] []).
Proof.
  destruct (login_perms_failure_skips_hydration server_perms_down "alice" "pw" empty_session
              (mkTokenData "t1" (Some "r1")) person_alice "Network Error"
              server_ok vue_router perms_target [] [] eq_refl ltac:(discriminate)
              eq_refl eq_refl eq_refl) as (_ & _ & _ & _ & _ & H).
  rewrite H. vm_compute. reflexivity.
Defined.

(** However many requests fail, the error handler opens at most one
    "login expired" box while one is showing: an auth error (401 or 403)
    opens one only when none is showing and adds no toast, every other
    error adds exactly one toast.  Confirming the box logs out and pushes
    [/login] twice (once in [logout], once after it). *)
Theorem auth_dialog_once (es : list AxiosError) (u : UiState) (us : UserState) :
  dialogs_opened (on_response_errors es u) =
    (dialogs_opened u + (if negb (authErrorShowing u) && existsb is_auth_error es then 1 else 0))%nat /\
  authErrorShowing (on_response_errors es u) = authErrorShowing u || existsb is_auth_error es /\
  length (toasts (on_response_errors es u)) =
    (length (toasts u) + length (List.filter (fun e => negb (is_auth_error e)) es))%nat /\
  isLoggedIn (snd (auth_dialog_settled true u us)) = false /\
  pushed (snd (auth_dialog_settled true u us)) = pushed us ++ ["/login"; "/login"] /\
  authErrorShowing (fst (auth_dialog_settled true u us)) = false.
Proof.
  split; [|split; [|split; [|split; [done|split; [simpl; rewrite <- app_assoc; done|done]]]]];
    revert u; induction es as [|e es IH]; intros u.
  - simpl. rewrite andb_false_r. lia.
  - unfold on_response_errors in *. simpl. rewrite IH.
    destruct e as [st msg|m]; unfold on_response_error, is_auth_error;
      [destruct (existsb (Z.eqb st) AUTH_ERROR_CODES); [destruct (authErrorShowing u) eqn:Hs|]|];
      repeat match goal with |- context [if str_includes ?a ?b then _ else _] =>
                 destruct (str_includes a b) end;
      simpl; try rewrite Hs; simpl; try lia.
  - simpl. rewrite orb_false_r. done.
  - unfold on_response_errors in *. simpl. rewrite IH.
    destruct e as [st msg|m]; unfold on_response_error, is_auth_error;
      [destruct (existsb (Z.eqb st) AUTH_ERROR_CODES); [destruct (authErrorShowing u) eqn:Hs|]|];
      repeat match goal with |- context [if str_includes ?a ?b then _ else _] =>
                 destruct (str_includes a b) end;
      simpl; try rewrite Hs; done.
  - simpl. lia.
  - unfold on_response_errors in *. simpl. rewrite IH.
    destruct e as [st msg|m]; unfold on_response_error, is_auth_error;
      [destruct (existsb (Z.eqb st) AUTH_ERROR_CODES); [destruct (authErrorShowing u) eqn:Hs|]|];
      repeat match goal with |- context [if str_includes ?a ?b then _ else _] =>
                 destruct (str_includes a b) end;
      simpl; rewrite ?length_app; simpl; lia.
Qed.

(** Every error other than 401/403 shows exactly one non-empty toast: the
    body's [message] when it is non-empty, otherwise the text for the HTTP
    status ([请求失败 (<status>)] for a status outside the table) or for the
    network failure. *)
Theorem error_toast_nonempty (e : AxiosError) (u : UiState) :
  is_auth_error e = false ->
  exists m, toasts (on_response_error e u) = toasts u ++ [m] /\ m <> "" /\
    (forall status message, e = WithResponse status message ->
       m = js_or message (getHttpErrorMessage status)).
Proof.
  intros Ha. destruct e as [st msg|m]; simpl in Ha.
  - unfold on_response_error, AUTH_ERROR_CODES. simpl. rewrite Ha. eexists. split; [done|]. split.
    + unfold js_or. destruct msg as [x|]; [|apply getHttpErrorMessage_nonempty].
      destruct (String.eqb x "") eqn:E; [apply getHttpErrorMessage_nonempty|].
      apply String.eqb_neq. done.
    + intros st' msg' [= <- <-]. done.
  - unfold on_response_error.
    destruct (str_includes m "timeout"); [|destruct (str_includes m "Network Error")];
      (eexists; split; [done|]); (split; [discriminate|]); intros ? ? [=].
Qed.

Lemma error_toast_nonempty_witness :
  toasts (on_response_error (WithResponse 418 None) (mkUi false 0 [])) = ["请求失败 (418)"].
Proof.
  destruct (error_toast_nonempty (WithResponse 418 None) (mkUi false 0 []) eq_refl)
    as (m & Hm & _ & Hmsg).
  rewrite Hm, (Hmsg 418 None eq_refl). vm_compute. reflexivity.
Defined.

(** A node appears in the tree [filterVisibleMenus] returns exactly when
    it and every ancestor up to its root are visible ([isShow] set, type
    other than 2): a hidden node removes its whole subtree. *)
Theorem filterVisibleMenus_shown (items : list MenuItem) :
  Permutation (flatten (filterVisibleMenus items)) (flat_map visible_ids items).
Proof.
  apply filter_level_shown. intros c _ _. apply visible_children_shown.
Qed.

(** The sort in [filterVisibleMenus] is stable at every level: among the
    kept siblings with the same [orderNum], the input order is kept. *)
Theorem filterVisibleMenus_stable (items : list MenuItem) (t : MenuItem) (k : Z) :
  List.filter (fun it => orderNum it =? k) (filterVisibleMenus items) =
    map (fun it => with_children it (visible_children it))
      (List.filter (fun it => orderNum it =? k) (List.filter visible items)) /\
  List.filter (fun it => orderNum it =? k) (visible_children t) =
    map (fun it => with_children it (visible_children it))
      (List.filter (fun it => orderNum it =? k) (List.filter visible (children t))).
Proof.
  assert (H : forall l, List.filter (fun it => orderNum it =? k) (filterVisibleMenus l) =
    map (fun it => with_children it (visible_children it))
      (List.filter (fun it => orderNum it =? k) (List.filter visible l))).
  { intros l. unfold filterVisibleMenus, filter_level. rewrite sort_by_order_filter.
    induction (List.filter visible l) as [|x r IH]; [done|]. simpl.
    destruct (orderNum x =? k); simpl; rewrite IH; done. }
  split; [apply H|]. rewrite visible_children_eq. apply H.
Qed.
